(** * Chunk record/replay engine of slackdump: model and properties

    A shallow embedding of [internal/chunk/chunk.go], [internal/chunk/player.go]
    and of the replay server of package [chunktest], with the theorems that
    settle the properties stated for them.

    Go maps are [gmap]s, Go slices are lists, [int64] offsets are [Z].  A Go
    function that returns [(T, error)] returns a [result T]; a nil-pointer
    dereference is the outcome [Panicked].  Methods with a pointer receiver
    that mutate the [Player] return the new [Player] next to their result.
    The model is sequential: the mutex of the [Player] makes each of its
    methods one atomic step, and it is these steps that are modelled. *)

From stdpp Require Import base decidable option list gmap strings sorting pretty.
From Stdlib Require Import ZArith Lia Ascii.

Set Warnings "-clear-no-such-hyp".

(** ** Errors and results *)

(** The error values that travel through package [chunk].  [ErrNotFound] and
    [ErrExhausted] are the sentinels of player.go, [ErrUnsupChunkType] the
    one of chunk.go, [EOF] is [io.EOF].  [ErrIO] stands for whatever
    the underlying stream returns when a [Seek] or a [Read] fails and
    [ErrSyntax] for a decoding error of [encoding/json].  [ErrDecodeAt off e]
    is the value built by
    [fmt.Errorf("failed to decode chunk at offset %d: %w", off, e)]. *)
Inductive error : Type :=
  | ErrNotFound
  | ErrExhausted
  | ErrUnsupChunkType
  | EOF
  | ErrIO
  | ErrSyntax
  | ErrDecodeAt (off : Z) (e : error).

#[global] Instance error_eq_dec : EqDecision error.
Proof. solve_decision. Defined.

(** [errors.Is]: [target] is [e] or is wrapped (with [%w]) inside [e]. *)
Fixpoint errors_Is (e target : error) : bool :=
  if decide (e = target) then true
  else match e with
       | ErrDecodeAt _ e' => errors_Is e' target
       | _ => false
       end.

Inductive result (A : Type) : Type :=
  | Ok (a : A)
  | Err (e : error)
  | Panicked.
Arguments Ok {A} a.
Arguments Err {A} e.
Arguments Panicked {A}.

#[global] Instance result_eq_dec `{EqDecision A} : EqDecision (result A).
Proof. solve_decision. Defined.

#[global] Instance result_bind : MBind result := λ A B k r,
  match r with
  | Ok a => k a
  | Err e => Err e
  | Panicked => Panicked
  end.

#[global] Instance result_ret : MRet result := λ A a, Ok a.

#[global] Instance result_fmap : FMap result := λ A B f r,
  match r with
  | Ok a => Ok (f a)
  | Err e => Err e
  | Panicked => Panicked
  end.

(** ** The [strings] functions the package uses *)

(** [strings.Join(ids, sep)]. *)
Fixpoint strings_Join (ids : list string) (sep : string) : string :=
  match ids with
  | [] => ""
  | [s] => s
  | s :: rest => s +:+ sep +:+ strings_Join rest sep
  end.

(** [strings.HasPrefix(s, prefix)]. *)
Definition strings_HasPrefix (s prefix : string) : bool := String.prefix prefix s.

(** [strings.Contains(s, substr)]: [substr] is a prefix of some suffix of [s]. *)
Fixpoint strings_Contains (s substr : string) : bool :=
  if String.prefix substr s then true
  else match s with
       | EmptyString => false
       | String _ s' => strings_Contains s' substr
       end.

(** [fmt.Stringer]. *)
Class Stringer (A : Type) := String_ : A → string.

(** ** The types of [github.com/slack-go/slack] that the package reads

    Only the fields that the modelled code touches are named; [Text] and the
    name fields stand for the rest of the payload. *)
Module slack.
Record Message := mkMessage {
  Timestamp : string;
  ThreadTimestamp : string;
  Text : string }.

Record File := mkFile {
  ID : string;
  Name : string }.

Record User := mkUser {
  UserID : string;
  UserName : string }.

Record Channel := mkChannel {
  ChannelID : string;
  ChannelName : string }.

Record AuthTestResponse := mkAuthTestResponse {
  Team : string;
  TeamID : string }.

Record StarredItem := mkStarredItem { StarredType : string }.

Record Bookmark := mkBookmark { BookmarkID : string }.
End slack.

(** ** chunk.go *)

(** [type ChunkType uint8]; the named values are numbered by [iota]. *)
Definition ChunkType := N.

Definition CMessages : ChunkType := 0%N.
Definition CThreadMessages : ChunkType := 1%N.
Definition CFiles : ChunkType := 2%N.
Definition CUsers : ChunkType := 3%N.
Definition CChannels : ChunkType := 4%N.
Definition CChannelInfo : ChunkType := 5%N.
Definition CWorkspaceInfo : ChunkType := 6%N.
Definition CChannelUsers : ChunkType := 7%N.
Definition CStarredItems : ChunkType := 8%N.
Definition CBookmarks : ChunkType := 9%N.

Record Chunk := mkChunk {
  Type_ : ChunkType;
  Timestamp : Z;
  ChannelID : string;
  Count : Z;
  ThreadTS : string;
  IsLast : bool;
  NumThreads : Z;
  Channel : option slack.Channel;
  ChannelUsers : list string;
  Parent : option slack.Message;
  Messages : list slack.Message;
  Files : list slack.File;
  Users : list slack.User;
  Channels : list slack.Channel;
  WorkspaceInfo : option slack.AuthTestResponse;
  StarredItems : list slack.StarredItem;
  Bookmarks : list slack.Bookmark }.

(** [type GroupID string]. *)
Abbreviation GroupID := string.

Definition userChunkID : GroupID := "lusr".
Definition channelChunkID : GroupID := "lch".
Definition starredChunkID : GroupID := "ls".
Definition wspInfoChunkID : GroupID := "iw".

Definition threadPrefix := "t".
Definition filePrefix := "f".
Definition chanInfoPrefix := "ic".
Definition bookmarkPrefix := "lb".
Definition chanUsersPrefix := "lcu".

(** [func id(prefix string, ids ...string) GroupID]. *)
Definition id (prefix : string) (ids : list string) : GroupID :=
  prefix +:+ strings_Join ids ":".

Definition threadID (channelID threadTS : string) : GroupID :=
  id threadPrefix [channelID; threadTS].

Definition channelInfoID (channelID : string) : GroupID :=
  id chanInfoPrefix [channelID].

Definition channelUsersID (channelID : string) : GroupID :=
  id chanUsersPrefix [channelID].

(** Reading a field through the pointer [c.Parent]: nil panics. *)
Definition deref {A} (p : option A) : result A :=
  match p with
  | Some a => Ok a
  | None => Panicked
  end.

Section ChunkID.
(** The [String] method of [ChunkType] is generated by [stringer]; the
    generated file is not part of the sources read here, so the method is
    a parameter of the model. *)
Context `{!Stringer ChunkType}.

(** [func (c *Chunk) ID() GroupID]. *)
Definition ID (c : Chunk) : result GroupID :=
  let t := c.(Type_) in
  if decide (t = CMessages) then Ok c.(ChannelID)
  else if decide (t = CThreadMessages) then
    p ← deref c.(Parent); Ok (threadID c.(ChannelID) p.(slack.ThreadTimestamp))
  else if decide (t = CFiles) then
    p ← deref c.(Parent); Ok (id filePrefix [c.(ChannelID); p.(slack.Timestamp)])
  else if decide (t = CChannelInfo) then Ok (channelInfoID c.(ChannelID))
  else if decide (t = CChannelUsers) then Ok (channelUsersID c.(ChannelID))
  else if decide (t = CUsers) then Ok userChunkID
  else if decide (t = CChannels) then Ok channelChunkID
  else if decide (t = CWorkspaceInfo) then Ok wspInfoChunkID
  else if decide (t = CStarredItems) then Ok starredChunkID
  else if decide (t = CBookmarks) then Ok (id bookmarkPrefix [c.(ChannelID)])
  else Ok ("<unknown:" +:+ String_ t +:+ ">").
End ChunkID.

(** The chunk types that [ID] has a case for. *)
Definition supported (t : ChunkType) : Prop := (t <= 9)%N.

(** The chunk types whose key is a constant. *)
Definition static_key (t : ChunkType) : Prop :=
  t = CUsers ∨ t = CChannels ∨ t = CWorkspaceInfo ∨ t = CStarredItems.

(** The categories of the group keys: the first byte of a key. *)
Definition catFile : ascii := "f".
Definition catInfo : ascii := "i".
Definition catList : ascii := "l".

(** [func (g GroupID) isInfo() bool]: [g[0]] panics on the empty key. *)
Definition isInfo (g : GroupID) : result bool :=
  match g with
  | EmptyString => Panicked
  | String a _ => Ok (bool_decide (a = catInfo))
  end.

(** [func (g GroupID) isList() bool]. *)
Definition isList (g : GroupID) : result bool :=
  match g with
  | EmptyString => Panicked
  | String a _ => Ok (bool_decide (a = catList))
  end.

Section Timestamps.
(** [structures.TS2int] is not among the sources: it is a parameter, and
    [E] is the type of the errors it returns. *)
Context {E : Type} (TS2int : string → E + Z).

(** What [Timestamps] fails with: [ErrUnsupChunkType], or the error built by
    [fmt.Errorf("invalid timestamp: %q: %w", ts, err)]. *)
Inductive timestamps_error : Type :=
  | UnsupChunkType
  | InvalidTimestamp (ts : string) (err : E).

(** The loop of [messageTimestamps]: it returns at the first timestamp that
    does not convert. *)
Fixpoint messageTimestamps_loop (ms : list slack.Message)
  : timestamps_error + list Z :=
  match ms with
  | [] => inr []
  | m :: rest =>
      match TS2int (slack.Timestamp m) with
      | inl err => inl (InvalidTimestamp (slack.Timestamp m) err)
      | inr iTS =>
          match messageTimestamps_loop rest with
          | inl e => inl e
          | inr ts => inr (iTS :: ts)
          end
      end
  end.

(** [func (c *Chunk) messageTimestamps() ([]int64, error)]. *)
Definition messageTimestamps (c : Chunk) : timestamps_error + list Z :=
  messageTimestamps_loop (Messages c).

(** [func (c *Chunk) Timestamps() ([]int64, error)]. *)
Definition Timestamps (c : Chunk) : timestamps_error + list Z :=
  if decide (Type_ c = CMessages ∨ Type_ c = CThreadMessages)
  then messageTimestamps c
  else inl UnsupChunkType.
End Timestamps.
Arguments UnsupChunkType {E}.
Arguments InvalidTimestamp {E} ts err.

(** ** The state ledger *)

Module state.
(** Modelled from the spec: package [internal/chunk/state] ([State], [New],
    [AddMessage], [AddThread], [AddFile]) is not among the sources.  The
    ledger holds three sets: the captured message timestamps per channel,
    the captured thread-message timestamps per (channel, thread) pair, and
    the captured file identifiers per channel, each with the path it is
    stored at locally (empty when unknown). *)
Record State := mkState {
  Filename : string;
  Channels : gmap string (gset string);
  Threads : gmap (string * string) (gset string);
  Files : gmap string (gmap string string) }.

(** Modelled from the spec: [state.New], an empty ledger labelled with the
    name of the log. *)
Definition New (filename : string) : State := mkState filename ∅ ∅ ∅.

(** Modelled from the spec: [State.AddMessage] records a message timestamp
    under its channel. *)
Definition AddMessage (s : State) (channelID messageTS : string) : State :=
  mkState s.(Filename)
    (<[channelID := {[messageTS]} ∪ default ∅ (s.(Channels) !! channelID)]> s.(Channels))
    s.(Threads) s.(Files).

(** Modelled from the spec: [State.AddThread] records a reply timestamp
    under its (channel, parent thread) pair. *)
Definition AddThread (s : State) (channelID threadTS ts : string) : State :=
  mkState s.(Filename) s.(Channels)
    (<[(channelID, threadTS) := {[ts]} ∪ default ∅ (s.(Threads) !! (channelID, threadTS))]>
       s.(Threads))
    s.(Files).

(** Modelled from the spec: [State.AddFile] records a file identifier under
    its channel, with the local path [path]. *)
Definition AddFile (s : State) (channelID fileID path : string) : State :=
  mkState s.(Filename) s.(Channels) s.(Threads)
    (<[channelID := <[fileID := path]> (default ∅ (s.(Files) !! channelID))]> s.(Files)).

(** Modelled from the spec: what the ledger reports.  [HasMessage] and
    [HasThread] say that a timestamp is among the captured ones of a
    channel or of a thread; [FilePath] is the local path noted for a
    captured file of a channel, [Some ""] when the path is unknown and
    [None] when the file is not in the ledger. *)
Definition HasMessage (s : State) (channelID ts : string) : Prop :=
  ts ∈ default ∅ (s.(Channels) !! channelID).

Definition HasThread (s : State) (channelID threadTS ts : string) : Prop :=
  ts ∈ default ∅ (s.(Threads) !! (channelID, threadTS)).

Definition FilePath (s : State) (channelID fileID : string) : option string :=
  default ∅ (s.(Files) !! channelID) !! fileID.
End state.

(** ** The stream under the player

    The log is a sequence of self-delimited records.  A [Frame] is one of
    them: the number of bytes it takes in the stream and the chunk that
    [encoding/json] decodes from these bytes, or [None] when they do not
    decode.  The byte offset of a record is the sum of the sizes before it. *)
Record Frame := mkFrame {
  size : positive;
  content : option Chunk }.

(** An [io.ReadSeeker]: the records, the current position, whether the
    handle has been closed, and, when the stream is a [namer] (an [*os.File]),
    the base name of the file. *)
Record ReadSeeker := mkReadSeeker {
  frames : list Frame;
  pos : Z;
  closed : bool;
  baseName : option string }.

(** [rs.Seek(offset, io.SeekStart)]: fails on a closed handle and on a
    negative offset. *)
Definition Seek (rs : ReadSeeker) (offset : Z) : result Z * ReadSeeker :=
  if closed rs || (offset <? 0)%Z then (Err ErrIO, rs)
  else (Ok offset, mkReadSeeker (frames rs) offset (closed rs) (baseName rs)).

(** What a reader that starts at byte [off] of the stream sees: the records
    from [off] on when a record begins there, and undecodable bytes first
    when [off] falls inside a record. *)
Fixpoint frames_from (fs : list Frame) (off : Z) : list Frame :=
  match fs with
  | [] => []
  | f :: fs' =>
      if (off <=? 0)%Z then fs
      else if (off <? Z.pos (size f))%Z
           then mkFrame (Z.to_pos (Z.pos (size f) - off)) None :: fs'
           else frames_from fs' (off - Z.pos (size f))
  end.

(** A [json.Decoder]: the input left to decode and the number of bytes
    consumed so far ([InputOffset]); [broken] when the reader under it fails. *)
Record Decoder := mkDecoder {
  input : list Frame;
  InputOffset : Z;
  broken : bool }.

Definition json_NewDecoder (rs : ReadSeeker) : Decoder :=
  mkDecoder (frames_from (frames rs) (pos rs)) 0 (closed rs).

(** [dec.Decode(&chunk)]. *)
Definition Decode (dec : Decoder) : result Chunk * Decoder :=
  if broken dec then (Err ErrIO, dec)
  else match input dec with
       | [] => (Err EOF, dec)
       | f :: rest =>
           match content f with
           | Some chunk =>
               (Ok chunk, mkDecoder rest (InputOffset dec + Z.pos (size f)) false)
           | None => (Err ErrSyntax, dec)
           end
       end.

(** ** player.go *)

(** [type index map[string][]int64] and [type offsets map[string]int].  The
    cursor values are only ever [0] or the successor of a cursor value, so
    they are natural numbers. *)
Abbreviation index := (gmap string (list Z)).
Abbreviation offsets := (gmap string nat).

Record Player := mkPlayer {
  rs : ReadSeeker;
  idx : index;
  pointer : offsets;
  lastOffset : Z }.

Section Player.
Context `{!Stringer ChunkType}.

(** The loop of [indexRecords], on the input left to the decoder and its
    [InputOffset]: end of input is [io.EOF] and ends the loop. *)
Fixpoint indexRecords_loop (inp : list Frame) (offset : Z) (idx : index)
  : result index :=
  match inp with
  | [] => Ok idx
  | f :: rest =>
      match content f with
      | None => Err ErrSyntax
      | Some chunk =>
          k ← ID chunk;
          indexRecords_loop rest (offset + Z.pos (size f))
            (<[k := default [] (idx !! k) ++ [offset]]> idx)
      end
  end.

(** [func indexRecords(dec decodeOffsetter) (index, error)]. *)
Definition indexRecords (dec : Decoder) : result index :=
  if broken dec then Err ErrIO
  else indexRecords_loop (input dec) (InputOffset dec) ∅.

(** [func NewPlayer(rs io.ReadSeeker)]. *)
Definition NewPlayer (rs : ReadSeeker) : result Player :=
  idx ← indexRecords (json_NewDecoder rs);
  let '(r, rs') := Seek rs 0 in
  _ ← r;
  Ok (mkPlayer rs' idx ∅ 0).

(** [func (p *Player) Offset() int64]. *)
Definition Offset (p : Player) : Z := lastOffset p.

(** [func (p *Player) tryGetChunk(id string)].  After a
    decode the stream is left behind the bytes the decoder consumed (what
    it reads ahead is not modelled: every read seeks first). *)
Definition tryGetChunk (p : Player) (id : GroupID) : result Chunk * Player :=
  match idx p !! id with
  | None => (Err ErrNotFound, p)
  | Some offs =>
      let ptr := default 0 (pointer p !! id) in
      let pointer1 :=
        match pointer p !! id with
        | Some _ => pointer p
        | None => <[id := 0]> (pointer p)
        end in
      if decide (length offs ≤ ptr)
      then (Err EOF, mkPlayer (rs p) (idx p) pointer1 (lastOffset p))
      else
        let off := default 0%Z (offs !! ptr) in
        let '(r, rs1) := Seek (rs p) off in
        match r with
        | Err e => (Err e, mkPlayer rs1 (idx p) pointer1 off)
        | Panicked => (Panicked, mkPlayer rs1 (idx p) pointer1 off)
        | Ok _ =>
            let '(r, dec) := Decode (json_NewDecoder rs1) in
            let rs2 := mkReadSeeker (frames rs1) (off + InputOffset dec)
                         (closed rs1) (baseName rs1) in
            match r with
            | Err e =>
                (Err (ErrDecodeAt off e), mkPlayer rs2 (idx p) pointer1 off)
            | Panicked => (Panicked, mkPlayer rs2 (idx p) pointer1 off)
            | Ok chunk =>
                (Ok chunk,
                 mkPlayer rs2 (idx p)
                   (<[id := S (default 0 (pointer1 !! id))]> pointer1) off)
            end
        end
  end.

(** [func (p *Player) hasMore(id string) bool]. *)
Definition hasMore (p : Player) (id : GroupID) : bool :=
  match idx p !! id with
  | None => false
  | Some offs =>
      match pointer p !! id with
      | None => true
      | Some ptr => bool_decide (ptr < length offs)
      end
  end.

(** The typed accessors. *)
Definition Messages_ (p : Player) (channelID : string)
  : result (list slack.Message) * Player :=
  let '(r, p') := tryGetChunk p channelID in (chunk ← r; Ok (Messages chunk), p').

Definition Users_ (p : Player) : result (list slack.User) * Player :=
  let '(r, p') := tryGetChunk p userChunkID in (chunk ← r; Ok (Users chunk), p').

Definition Channels_ (p : Player) : result (list slack.Channel) * Player :=
  let '(r, p') := tryGetChunk p channelChunkID in (chunk ← r; Ok (Channels chunk), p').

Definition Thread (p : Player) (channelID threadTS : string)
  : result (list slack.Message) * Player :=
  let '(r, p') := tryGetChunk p (threadID channelID threadTS) in
  (chunk ← r; Ok (Messages chunk), p').

(** [ChannelInfo] returns the pointer [chunk.Channel], which may be nil.
    player.go calls [channelInfoID(id, false)]; chunk.go declares
    [channelInfoID] with the channel as its only parameter, which is the
    function used here. *)
Definition ChannelInfo (p : Player) (id : string)
  : result (option slack.Channel) * Player :=
  let '(r, p') := tryGetChunk p (channelInfoID id) in (chunk ← r; Ok (Channel chunk), p').

Definition HasMoreMessages (p : Player) (channelID : string) : bool :=
  hasMore p channelID.

Definition HasMoreThreads (p : Player) (channelID threadTS : string) : bool :=
  hasMore p (threadID channelID threadTS).

Definition HasMoreChannels (p : Player) : bool := hasMore p channelChunkID.
Definition HasUsers (p : Player) : bool := hasMore p userChunkID.
Definition HasChannels (p : Player) : bool := hasMore p channelChunkID.

(** [func (p *Player) Reset() error]: the cursor table is replaced before
    the seek is tried. *)
Definition Reset (p : Player) : result unit * Player :=
  let '(r, rs') := Seek (rs p) 0 in
  (_ ← r; Ok (), mkPlayer rs' (idx p) ∅ (lastOffset p)).

(** The loop of [ForEach] on the input left to the decoder.  [fn] is the
    callback; the value of type [S] is the state its closure captures. *)
Fixpoint ForEach_loop {S} (fn : option Chunk → S → result S)
    (inp : list Frame) (s : S) : result S :=
  match inp with
  | [] => Ok s
  | f :: rest =>
      match content f with
      | None => Err ErrSyntax
      | Some chunk => s' ← fn (Some chunk) s; ForEach_loop fn rest s'
      end
  end.

(** [func (p *Player) ForEach(fn func(ev *Chunk) error) error]; the
    deferred [Seek] runs on every path after [Reset] succeeded. *)
Definition ForEach {S} (p : Player) (fn : option Chunk → S → result S) (s : S)
  : result S * Player :=
  let '(r, p1) := Reset p in
  match r with
  | Err e => (Err e, p1)
  | Panicked => (Panicked, p1)
  | Ok _ =>
      let dec := json_NewDecoder (rs p1) in
      let res := if broken dec then Err ErrIO else ForEach_loop fn (input dec) s in
      let '(_, rs') := Seek (rs p1) 0 in
      (res, mkPlayer rs' (idx p1) (pointer p1) (lastOffset p1))
  end.

(** The three loops in the callback of [State]. *)
Definition addFiles (s : state.State) (ev : Chunk) : state.State :=
  foldl (λ s f, state.AddFile s (ChannelID ev) (slack.ID f) "") s (Files ev).

Fixpoint addThreads (s : state.State) (ev : Chunk) (ms : list slack.Message)
  : result state.State :=
  match ms with
  | [] => Ok s
  | m :: rest =>
      parent ← deref (Parent ev);
      addThreads
        (state.AddThread s (ChannelID ev) (slack.ThreadTimestamp parent)
           (slack.Timestamp m))
        ev rest
  end.

Definition addMessages (s : state.State) (ev : Chunk) : state.State :=
  foldl (λ s m, state.AddMessage s (ChannelID ev) (slack.Timestamp m)) s (Messages ev).

(** The callback that [State] passes to [ForEach]. *)
Definition State_fn (ev : option Chunk) (s : state.State) : result state.State :=
  match ev with
  | None => Ok s
  | Some ev =>
      let s1 := if decide (Type_ ev = CFiles) then addFiles s ev else s in
      s2 ← (if decide (Type_ ev = CThreadMessages)
            then addThreads s1 ev (Messages ev) else Ok s1);
      Ok (if decide (Type_ ev = CMessages) then addMessages s2 ev else s2)
  end.

(** [func (p *Player) State()]. *)
Definition State (p : Player) : result state.State * Player :=
  let name := default "" (baseName (rs p)) in
  ForEach p State_fn (state.New name).

(** The loop of [allForID].  It has no bound in the source; here it runs
    at most [fuel] times and [None] says that the fuel ran out. *)
Fixpoint allForID_loop {T} (fuel : nat) (p : Player) (id : GroupID)
    (fn : Chunk → list T) (m : list T) : option (result (list T) * Player) :=
  match fuel with
  | 0 => None
  | S fuel' =>
      let '(r, p') := tryGetChunk p id in
      match r with
      | Err e => if decide (e = EOF) then Some (Ok m, p') else Some (Err e, p')
      | Panicked => Some (Panicked, p')
      | Ok chunk => allForID_loop fuel' p' id fn (m ++ fn chunk)
      end
  end.

(** [func allForID[T any]]: [Reset], then [tryGetChunk] until [io.EOF]. *)
Definition allForID {T} (fuel : nat) (p : Player) (id : GroupID)
    (fn : Chunk → list T) : option (result (list T) * Player) :=
  let '(r, p1) := Reset p in
  match r with
  | Err e => Some (Err e, p1)
  | Panicked => Some (Panicked, p1)
  | Ok _ => allForID_loop fuel p1 id fn []
  end.

Definition allMessagesForID (fuel : nat) (p : Player) (id : GroupID) :=
  allForID fuel p id Messages.

Definition AllMessages (fuel : nat) (p : Player) (channelID : string) :=
  allMessagesForID fuel p channelID.

Definition AllThreadMessages (fuel : nat) (p : Player) (channelID threadTS : string) :=
  allMessagesForID fuel p (threadID channelID threadTS).

Definition AllUsers (fuel : nat) (p : Player) := allForID fuel p userChunkID Users.

Definition AllChannels (fuel : nat) (p : Player) := allForID fuel p channelChunkID Channels.
End Player.

(** The test of the loop of [AllChannelIDs]. *)
Definition is_channel_key (id : GroupID) : bool :=
  negb (strings_Contains id ":") && negb (strings_HasPrefix id "ci").

(** [func (p *Player) AllChannelIDs() []string].  The keys of a Go map are
    ranged over in no fixed order; the sort makes the result independent of
    it.  [sort.Strings] sorts by the bytewise lexicographic order, which is
    [String.le]. *)
Definition AllChannelIDs (p : Player) : list string :=
  merge_sort String.le
    (filter (λ id, is_channel_key id = true) (map fst (map_to_list (idx p)))).

(** ** The recorder *)

(** Modelled from the spec: the Recorder is not among the sources.  It
    appends one self-delimited record per chunk, in capture order, and a
    record decodes to the chunk it was written from.  [enc_size c] is the
    number of bytes the record of [c] takes. *)
Definition frames_of (enc_size : Chunk → positive) (chunks : list Chunk) : list Frame :=
  map (λ c, mkFrame (enc_size c) (Some c)) chunks.

(** Modelled from the spec: the finished log of the Recorder, opened for
    reading and positioned at its start. *)
Definition recorded (enc_size : Chunk → positive) (chunks : list Chunk) : ReadSeeker :=
  mkReadSeeker (frames_of enc_size chunks) 0 false None.

(** The chunks that the recorder is handed carry the parent message where
    the key is built from it: [Parent] "is populated in case the chunk is a
    thread, or a file". *)
Definition has_parent (c : Chunk) : Prop :=
  Type_ c = CThreadMessages ∨ Type_ c = CFiles → is_Some (Parent c).

(** ** The replay server of package [chunktest] *)

Module chunktest.
(** A string that is either spelled out in the handler or the text
    [err.Error()] of an error. *)
Inductive text : Type :=
  | Lit (s : string)
  | ErrorText (e : error).

(** [slack.SlackResponse], with the cursor of its [ResponseMetadata]. *)
Record SlackResponse := mkSlackResponse {
  Ok_ : bool;
  Error : text;
  Cursor : string }.

(** The bodies the handlers encode: [slack.GetConversationHistoryResponse],
    [GetConversationRepliesResponse], [channelResponseFull],
    [channelResponse] and [userResponseFull]. *)
Inductive body : Type :=
  | HistoryResponse (sr : SlackResponse) (HasMore : bool)
      (NextCursor : string) (Messages : list slack.Message)
  | RepliesResponse (sr : SlackResponse) (HasMore : bool)
      (NextCursor : string) (Messages : list slack.Message)
  | ChannelResponseFull (sr : SlackResponse) (Channel : slack.Channel)
  | ChannelResponse (sr : SlackResponse) (Channels : list slack.Channel)
  | UserResponseFull (sr : SlackResponse) (Users : list slack.User).

(** What a handler writes: [http.NotFound], [http.Error] with a status
    code, or status 200 with a JSON body.  [Aborted] is a handler that
    panicked.  Writing to the [http.ResponseWriter] is taken to succeed. *)
Inductive Response : Type :=
  | NotFound
  | HttpError (code : Z) (msg : text)
  | JSON (b : body)
  | Aborted.

Definition StatusBadRequest : Z := 400.
Definition StatusInternalServerError : Z := 500.

(** [strconv.FormatInt(i, 10)]. *)
Definition FormatInt (i : Z) : string := pretty i.

Definition ok_response : SlackResponse := mkSlackResponse true (Lit "") "".

Section Handlers.

(** [handleConversationsHistory]; [channel] is [r.FormValue("channel")]. *)
Definition handleConversationsHistory (p : Player) (channel : string)
  : Response * Player :=
  if decide (channel = "") then (NotFound, p)
  else
    let '(r, p') := Messages_ p channel in
    match r with
    | Err err =>
        if errors_Is err ErrNotFound then (NotFound, p')
        else if errors_Is err EOF
        then (JSON (HistoryResponse ok_response false "" []), p')
        else (HttpError StatusInternalServerError (ErrorText err), p')
    | Panicked => (Aborted, p')
    | Ok msg =>
        (JSON (HistoryResponse ok_response (HasMoreMessages p' channel)
                 (FormatInt (Offset p')) msg), p')
    end.

(** [handleConversationsReplies]; [timestamp] is [r.FormValue("ts")]. *)
Definition handleConversationsReplies (p : Player) (channel timestamp : string)
  : Response * Player :=
  if decide (timestamp = "")
  then (HttpError StatusBadRequest (Lit "ts is required"), p)
  else
    let '(r, p') := Thread p channel timestamp in
    match r with
    | Panicked => (Aborted, p')
    | Err err =>
        let slackResp :=
          if errors_Is err EOF
          then mkSlackResponse false
                 (Lit ("thread_not_found[" +:+ channel +:+ ":" +:+ timestamp +:+ "]")) ""
          else mkSlackResponse false (ErrorText err) "" in
        (JSON (RepliesResponse slackResp (HasMoreThreads p' channel timestamp)
                 (FormatInt (Offset p')) []), p')
    | Ok msg =>
        (JSON (RepliesResponse ok_response (HasMoreThreads p' channel timestamp)
                 (FormatInt (Offset p')) msg), p')
    end.

(** [handleConversationsInfo]; [*ci] panics on a nil [Channel]. *)
Definition handleConversationsInfo (p : Player) (channel : string)
  : Response * Player :=
  if decide (channel = "")
  then (HttpError StatusBadRequest (Lit "channel is required"), p)
  else
    let '(r, p') := ChannelInfo p channel in
    match r with
    | Panicked => (Aborted, p')
    | Err err =>
        if errors_Is err ErrNotFound then (NotFound, p')
        else (HttpError StatusInternalServerError (ErrorText err), p')
    | Ok None => (Aborted, p')
    | Ok (Some ci) => (JSON (ChannelResponseFull ok_response ci), p')
    end.

(** [handleConversationsList]. *)
Definition handleConversationsList (p : Player) : Response * Player :=
  let '(r, p') := Channels_ p in
  match r with
  | Panicked => (Aborted, p')
  | Err err =>
      if errors_Is err EOF
      then (JSON (ChannelResponse (mkSlackResponse false (Lit "") "") []), p')
      else (HttpError StatusInternalServerError (ErrorText err), p')
  | Ok c => (JSON (ChannelResponse (mkSlackResponse true (Lit "") "moar") c), p')
  end.

(** [handleUsersList]. *)
Definition handleUsersList (p : Player) : Response * Player :=
  let '(r, p') := Users_ p in
  match r with
  | Panicked => (Aborted, p')
  | Err err =>
      if errors_Is err EOF
      then (JSON (UserResponseFull
                    (mkSlackResponse false (Lit "pagination complete") "") []), p')
      else (HttpError StatusInternalServerError (ErrorText err), p')
  | Ok u => (JSON (UserResponseFull ok_response u), p')
  end.
End Handlers.

(** An answer that reports success with no items and no further page. *)
Definition empty_success (r : Response) : Prop :=
  match r with
  | JSON (HistoryResponse sr more _ ms)
  | JSON (RepliesResponse sr more _ ms) => Ok_ sr = true ∧ more = false ∧ ms = []
  | JSON (ChannelResponse sr cs) => Ok_ sr = true ∧ cs = []
  | JSON (UserResponseFull sr us) => Ok_ sr = true ∧ us = []
  | _ => False
  end.

(** An answer that reports a failure: an HTTP error status, or a body whose
    [ok] flag is false. *)
Definition error_response (r : Response) : Prop :=
  match r with
  | NotFound | HttpError _ _ | Aborted => True
  | JSON (HistoryResponse sr _ _ _)
  | JSON (RepliesResponse sr _ _ _)
  | JSON (ChannelResponseFull sr _)
  | JSON (ChannelResponse sr _)
  | JSON (UserResponseFull sr _) => Ok_ sr = false
  end.
End chunktest.

(** ** The application parameters of package [config] *)

Module config.
Definition OutputTypeJSON : string := "json".
Definition OutputTypeText : string := "text".

Record EmojiParams := mkEmojiParams {
  Enabled : bool;
  FailOnError : bool }.

Record Output := mkOutput {
  Filename : string;
  Format : string;
  Base : string }.

(** [structures.EntityList]: the entries to include and to exclude. *)
Record EntityList := mkEntityList {
  Include : list string;
  Exclude : list string }.

Record Input := mkInput { List : EntityList }.

Record ListFlags := mkListFlags {
  Users : bool;
  Channels : bool }.

(** [type Params struct], with the fields that the methods below read. *)
Record Params := mkParams {
  ListFlags_ : ListFlags;
  Input_ : Input;
  Output_ : Output;
  FilenameTemplate : string;
  ExportName : string;
  ExportToken : string;
  Emoji : EmojiParams }.

(** [func (out Output) FormatValid() bool]. *)
Definition FormatValid (out : Output) : bool :=
  bool_decide (Format out ≠ "") &&
  (bool_decide (Format out = OutputTypeJSON) || bool_decide (Format out = OutputTypeText)).

(** [func (out Output) IsText() bool]. *)
Definition IsText (out : Output) : bool := bool_decide (Format out = OutputTypeText).

(** [func (lf ListFlags) FlagsPresent() bool]. *)
Definition FlagsPresent (lf : ListFlags) : bool := Users lf || Channels lf.

Section Methods.
(** The methods [IsEmpty] and [HasIncludes] of [structures.EntityList] and
    the function [nametmpl.Compile] are not among the sources: they are
    parameters.  [E] is the type of the errors of [nametmpl.Compile] and of
    the callbacks of [Producer]; [is_skip e] is [errors.Is(e, ErrSkip)]. *)
Context {E : Type}.
Variable IsEmpty : EntityList → bool.
Variable HasIncludes : EntityList → bool.
Variable Compile : string → option E.
Variable is_skip : E → bool.

(** The errors of [Validate] and [Producer]: [ErrInvalidInput],
    [ErrNothingToDo], the two errors built in [Validate], and an error
    handed on from [nametmpl.Compile] or from a callback. *)
Inductive error : Type :=
  | ErrInvalidInput
  | ErrNothingToDo
  | ErrEmojiBase
  | ErrInvalidOutputType (format : string)
  | Other (e : E).

(** [func (in *Input) IsValid() bool]. *)
Definition IsValid (inp : Input) : bool := negb (IsEmpty (List inp)).

(** [func (p *Params) CompileTemplates()], its error. *)
Definition CompileTemplates (p : Params) : option E := Compile (FilenameTemplate p).

Definition with_format (p : Params) (format : string) : Params :=
  mkParams (ListFlags_ p) (Input_ p)
    (mkOutput (Filename (Output_ p)) format (Base (Output_ p)))
    (FilenameTemplate p) (ExportName p) (ExportToken p) (Emoji p).

(** [func (p *Params) Validate() error]: the error, [None] for nil, and the
    parameters as the method leaves them. *)
Definition Validate (p : Params) : option error * Params :=
  if decide (ExportName p ≠ "") then (None, p)
  else if Enabled (Emoji p) then
    (if decide (Base (Output_ p) = "") then (Some ErrEmojiBase, p) else (None, p))
  else if negb (IsValid (Input_ p)) && negb (FlagsPresent (ListFlags_ p))
  then (Some ErrNothingToDo, p)
  else
    let p1 :=
      if decide (Format (Output_ p) = "") then
        if FlagsPresent (ListFlags_ p) then with_format p OutputTypeText
        else with_format p OutputTypeJSON
      else p in
    if negb (FlagsPresent (ListFlags_ p1)) && negb (FormatValid (Output_ p1))
    then (Some (ErrInvalidOutputType (Format (Output_ p1))), p1)
    else match CompileTemplates p1 with
         | Some err => (Some (Other err), p1)
         | None => (None, p1)
         end.

(** The loop of [listProducer]; the value of type [S] is the state that the
    closure [fn] captures. *)
Fixpoint listProducer_loop {S} (fn : string → S → option E * S)
    (entries : list string) (s : S) : option error * S :=
  match entries with
  | [] => (None, s)
  | entry :: rest =>
      match fn entry s with
      | (Some err, s') =>
          if is_skip err then listProducer_loop fn rest s' else (Some (Other err), s')
      | (None, s') => listProducer_loop fn rest s'
      end
  end.

(** [func (in *Input) listProducer(fn func(string) error) error]. *)
Definition listProducer {S} (inp : Input) (fn : string → S → option E * S) (s : S)
  : option error * S :=
  if negb (HasIncludes (List inp)) then (Some ErrInvalidInput, s)
  else listProducer_loop fn (Include (List inp)) s.

(** [func (in Input) Producer(fn func(string) error) error]. *)
Definition Producer {S} (inp : Input) (fn : string → S → option E * S) (s : S)
  : option error * S :=
  if negb (IsValid inp) then (Some ErrInvalidInput, s)
  else listProducer inp fn s.
End Methods.
Arguments ErrInvalidInput {E}.
Arguments ErrNothingToDo {E}.
Arguments ErrEmojiBase {E}.
Arguments ErrInvalidOutputType {E} format.
Arguments Other {E} e.
End config.

(** ** usercache.go: the names of the cache files *)

(** The loop of [filepath.Ext], from the last byte of the path backwards:
    [i] bytes are left to look at. *)
Fixpoint filepath_Ext_loop (path : string) (i : nat) : string :=
  match i with
  | 0 => ""
  | S j =>
      match String.get j path with
      | None => ""
      | Some c =>
          if decide (c = "/"%char) then ""
          else if decide (c = "."%char)
               then String.substring j (String.length path - j) path
               else filepath_Ext_loop path j
      end
  end.

(** [filepath.Ext(path)], with ["/"] as the path separator. *)
Definition filepath_Ext (path : string) : string :=
  filepath_Ext_loop path (String.length path).

(** [func filenameSplit(filename string) nameExt]. *)
Definition filenameSplit (filename : string) : string * string :=
  let ext := filepath_Ext filename in
  let name := String.substring 0 (String.length filename - String.length ext) filename in
  (name, ext).

(** [func filenameJoin(split nameExt) string]. *)
Definition filenameJoin (split : string * string) : string := split.1 +:+ split.2.

(** ** Concrete inputs *)

(** The [String] method that [stringer -type=ChunkType -trimprefix=C]
    generates for the constants above, used to run the model on concrete
    chunks.  The theorems below hold for every [String] method. *)
#[global] Instance ChunkType_String : Stringer ChunkType := λ t,
  match t with
  | 0%N => "Messages"
  | 1%N => "ThreadMessages"
  | 2%N => "Files"
  | 3%N => "Users"
  | 4%N => "Channels"
  | 5%N => "ChannelInfo"
  | 6%N => "WorkspaceInfo"
  | 7%N => "ChannelUsers"
  | 8%N => "StarredItems"
  | 9%N => "Bookmarks"
  | _ => "ChunkType(" +:+ pretty t +:+ ")"
  end.

(** A chunk of type [t] for channel [ch] with parent message [parent] and
    messages [ms]; every other field has its zero value. *)
Definition chunk_of (t : ChunkType) (ch : string) (parent : option slack.Message)
    (ms : list slack.Message) : Chunk :=
  mkChunk t 0 ch 0 "" false 0 None [] parent ms [] [] [] None [] [].

Definition msg (ts : string) : slack.Message := slack.mkMessage ts "" "".

Definition unknown_chunk : Chunk := chunk_of 17%N "C1" None [].

(** The thread root of scenario B and the record with its two replies. *)
Definition thread_root : slack.Message := slack.mkMessage "1000.001" "1000.001" "".

Definition scenarioB_chunk : Chunk :=
  chunk_of CThreadMessages "C1" (Some thread_root)
    [slack.mkMessage "1000.002" "1000.001" ""; slack.mkMessage "1000.003" "1000.001" ""].

(** The log of scenario B: one ThreadMessages record (taken to be 64 bytes
    long), and the player that [NewPlayer] builds over it. *)
Definition scenarioB_log : ReadSeeker := recorded (λ _, 64%positive) [scenarioB_chunk].

Definition scenarioB_player : Player :=
  mkPlayer scenarioB_log {["tC1:1000.001" := [0%Z]]} ∅ 0.

(** The same player after its only record has been read. *)
Definition scenarioB_drained : Player := (tryGetChunk scenarioB_player "tC1:1000.001").2.

(** The player over an empty log. *)
Definition empty_player : Player := mkPlayer (recorded (λ _, 64%positive) []) ∅ ∅ 0.

(** A player whose index points into the middle of the record of scenario B,
    and one whose stream has been closed. *)
Definition misaligned_player : Player :=
  mkPlayer scenarioB_log {["tC1:1000.001" := [7%Z]]} ∅ 0.

Definition closed_player : Player :=
  mkPlayer (mkReadSeeker (frames scenarioB_log) 0 true None)
    {["tC1:1000.001" := [0%Z]]} ∅ 0.

(** A log with a Messages record and the ChannelInfo record of channel [C1]
    and a Users record, and the player that [NewPlayer] builds over it. *)
Definition channels_log : ReadSeeker :=
  recorded (λ _, 64%positive)
    [chunk_of CMessages "C1" None [msg "1.0"];
     chunk_of CChannelInfo "C1" None [];
     chunk_of CUsers "" None []].

Definition channels_player : Player :=
  mkPlayer channels_log {["C1" := [0%Z]; "icC1" := [64%Z]; "lusr" := [128%Z]]} ∅ 0.

(** The log of scenario C: two Messages records of channel [C1], with the
    timestamps [1.0] and [2.0], and one Files record of [C1] with the file
    [F1] under the message [1.0]; and the player over it. *)
Definition scenarioC_chunks : list Chunk :=
  [chunk_of CMessages "C1" None [msg "1.0"];
   chunk_of CMessages "C1" None [msg "2.0"];
   mkChunk CFiles 0 "C1" 1 "" false 0 None [] (Some (msg "1.0")) []
     [slack.mkFile "F1" "report.pdf"] [] [] None [] []].

Definition scenarioC_log : ReadSeeker := recorded (λ _, 64%positive) scenarioC_chunks.

Definition scenarioC_player : Player :=
  mkPlayer scenarioC_log {["C1" := [0%Z; 64%Z]; "fC1:1.0" := [128%Z]]} ∅ 0.

(** A callback for [ForEach] that counts the records and refuses Files
    records. *)
Definition refuse_files (ev : option Chunk) (n : nat) : result nat :=
  match ev with
  | None => Ok n
  | Some c => if decide (Type_ c = CFiles) then Err ErrUnsupChunkType else Ok (S n)
  end.

(** Inputs for the application parameters: stand-ins for the two methods of
    [structures.EntityList] (a list is empty when it has neither includes nor
    excludes), parameters that ask for a dump of three channels, the same
    with the list flag for users and an unknown format, and a callback that
    notes the entries it is called with and skips [C2]. *)
Definition el_IsEmpty (el : config.EntityList) : bool :=
  match config.Include el, config.Exclude el with
  | [], [] => true
  | _, _ => false
  end.

Definition el_HasIncludes (el : config.EntityList) : bool :=
  match config.Include el with
  | [] => false
  | _ => true
  end.

Definition dump_params : config.Params :=
  config.mkParams (config.mkListFlags false false)
    (config.mkInput (config.mkEntityList ["C1"; "C2"; "C3"] []))
    (config.mkOutput "" "" "") "" "" "" (config.mkEmojiParams false false).

Definition list_params : config.Params :=
  config.mkParams (config.mkListFlags true false)
    (config.mkInput (config.mkEntityList [] []))
    (config.mkOutput "" "xml" "") "" "" "" (config.mkEmojiParams false false).

Definition note_entry (entry : string) (seen : list string) : option unit * list string :=
  if decide (entry = "C2") then (Some (), seen) else (None, seen ++ [entry]).

(** ** The vocabulary of the properties *)

(** The shape of the channel identifiers that keeps the keys apart: no
    [":"] inside, and no lower-case [i] or [l] in front (the first letters of
    the info and list keys).  The identifiers that Slack hands out are made
    of upper-case letters and digits. *)
Definition plain_channel (ch : string) : Prop :=
  strings_Contains ch ":" = false ∧
  match ch with
  | EmptyString => True
  | String a _ => a ≠ "i"%char ∧ a ≠ "l"%char
  end.

(** The addressing fields of a chunk agree with those of another one: the
    channel, and the timestamp of the parent that the key of its type is
    built from. *)
Definition same_address (c1 c2 : Chunk) : Prop :=
  ChannelID c1 = ChannelID c2 ∧
  (Type_ c1 = CThreadMessages →
   slack.ThreadTimestamp <$> Parent c1 = slack.ThreadTimestamp <$> Parent c2) ∧
  (Type_ c1 = CFiles →
   slack.Timestamp <$> Parent c1 = slack.Timestamp <$> Parent c2).

(** What a successful derivation says about the key, type by type. *)
Inductive key_shape (c : Chunk) (k : GroupID) : Prop :=
  | shape_Messages : Type_ c = CMessages → k = ChannelID c → key_shape c k
  | shape_Thread p :
      Type_ c = CThreadMessages → Parent c = Some p →
      k = String "t" (ChannelID c +:+ ":" +:+ slack.ThreadTimestamp p) → key_shape c k
  | shape_Files p :
      Type_ c = CFiles → Parent c = Some p →
      k = String "f" (ChannelID c +:+ ":" +:+ slack.Timestamp p) → key_shape c k
  | shape_Users : Type_ c = CUsers → k = "lusr" → key_shape c k
  | shape_Channels : Type_ c = CChannels → k = "lch" → key_shape c k
  | shape_ChannelInfo :
      Type_ c = CChannelInfo → k = String "i" (String "c" (ChannelID c)) → key_shape c k
  | shape_WorkspaceInfo : Type_ c = CWorkspaceInfo → k = "iw" → key_shape c k
  | shape_ChannelUsers :
      Type_ c = CChannelUsers →
      k = String "l" (String "c" (String "u" (ChannelID c))) → key_shape c k
  | shape_StarredItems : Type_ c = CStarredItems → k = "ls" → key_shape c k
  | shape_Bookmarks :
      Type_ c = CBookmarks → k = String "l" (String "b" (ChannelID c)) → key_shape c k.

(** The position of the cursor of a key: a key that is absent from the
    cursor table stands at position 0. *)
Definition cursor (p : Player) (id : GroupID) : nat := default 0 (pointer p !! id).

(** The offset that the next read for a key will seek to. *)
Definition next_offset (p : Player) (id : GroupID) : option Z :=
  offs ← idx p !! id; offs !! cursor p id.

(** What a log holds, record by record. *)
Definition captured_message (chunks : list Chunk) (ch ts : string) : Prop :=
  ∃ c m, c ∈ chunks ∧ Type_ c = CMessages ∧ ChannelID c = ch ∧
         m ∈ Messages c ∧ slack.Timestamp m = ts.

Definition captured_reply (chunks : list Chunk) (ch thr ts : string) : Prop :=
  ∃ c parent m, c ∈ chunks ∧ Type_ c = CThreadMessages ∧ ChannelID c = ch ∧
                Parent c = Some parent ∧ slack.ThreadTimestamp parent = thr ∧
                m ∈ Messages c ∧ slack.Timestamp m = ts.

Definition captured_file (chunks : list Chunk) (ch fid : string) : Prop :=
  ∃ c f, c ∈ chunks ∧ Type_ c = CFiles ∧ ChannelID c = ch ∧
         f ∈ Files c ∧ slack.ID f = fid.

(** The ledger [s] holds what the records [chunks] hold, and nothing else;
    every file of the ledger has the empty local path. *)
Definition ledger_of (chunks : list Chunk) (s : state.State) : Prop :=
  (∀ ch ts, state.HasMessage s ch ts ↔ captured_message chunks ch ts) ∧
  (∀ ch thr ts, state.HasThread s ch thr ts ↔ captured_reply chunks ch thr ts) ∧
  (∀ ch fid path,
     state.FilePath s ch fid = Some path ↔ path = "" ∧ captured_file chunks ch fid).

(** The records of a log with the offsets they start at, the first one at
    [base]. *)
Fixpoint located (enc_size : Chunk → positive) (base : Z) (chunks : list Chunk)
  : list (Z * Chunk) :=
  match chunks with
  | [] => []
  | c :: rest => (base, c) :: located enc_size (base + Z.pos (enc_size c)) rest
  end.

(** The located records of a log that have the key [k]. *)
Definition with_key `{!Stringer ChunkType} (k : GroupID) (l : list (Z * Chunk))
  : list (Z * Chunk) :=
  filter (λ oc, ID oc.2 = Ok k) l.

(** What stays true of a player over the log while it is read. *)
Definition reads_log `{!Stringer ChunkType} (enc_size : Chunk → positive)
    (chunks : list Chunk) (k : GroupID) (p : Player) : Prop :=
  frames (rs p) = frames_of enc_size chunks ∧ closed (rs p) = false ∧
  idx p !! k = Some (with_key k (located enc_size 0 chunks)).*1.

(** The player after one read for each key of [ids], in turn, whatever the
    reads return. *)
Definition reads (p : Player) (ids : list GroupID) : Player :=
  foldl (λ p id, (tryGetChunk p id).2) p ids.

(** A callback applied to the records [chunks] in turn, up to its first
    failure. *)
Fixpoint visit {S} (fn : option Chunk → S → result S) (chunks : list Chunk) (s : S)
  : result S :=
  match chunks with
  | [] => Ok s
  | c :: rest => s' ← fn (Some c) s; visit fn rest s'
  end.

(** The callback that keeps every record it is called with, in order. *)
Definition collect (ev : option Chunk) (acc : list Chunk) : result (list Chunk) :=
  Ok (acc ++ option_list ev).

(** ** Properties of the group key *)

Lemma supported_cases (t : ChunkType) :
  supported t →
  t = CMessages ∨ t = CThreadMessages ∨ t = CFiles ∨ t = CUsers ∨ t = CChannels ∨
  t = CChannelInfo ∨ t = CWorkspaceInfo ∨ t = CChannelUsers ∨ t = CStarredItems ∨
  t = CBookmarks.
Proof.
  unfold supported, CMessages, CThreadMessages, CFiles, CUsers, CChannels,
    CChannelInfo, CWorkspaceInfo, CChannelUsers, CStarredItems, CBookmarks.
  lia.
Qed.

Lemma Contains_colon_cons (a : ascii) (s : string) :
  strings_Contains (String a s) ":" = false ↔
  a ≠ ":"%char ∧ strings_Contains s ":" = false.
Proof.
  cbn [strings_Contains String.prefix].
  destruct (Ascii.ascii_dec ":" a) as [<-|Hne].
  - destruct s; cbn; split; [done|intros [? _]; done|done|intros [? _]; done].
  - split; [intros ?; split; [congruence|done]|intros [_ ?]; done].
Qed.

(** A string without [":"] is determined by what follows it up to the first
    [":"]. *)
Lemma colon_split (a a' b b' : string) :
  strings_Contains a ":" = false → strings_Contains a' ":" = false →
  a +:+ ":" +:+ b = a' +:+ ":" +:+ b' → a = a' ∧ b = b'.
Proof.
  revert a'. induction a as [|x a IH]; intros [|x' a'] Ha Ha' Heq; cbn in Heq.
  - by simplify_eq.
  - apply Contains_colon_cons in Ha' as [Hx' _]. by simplify_eq.
  - apply Contains_colon_cons in Ha as [Hx _]. by simplify_eq.
  - apply Contains_colon_cons in Ha as [_ Ha].
    apply Contains_colon_cons in Ha' as [_ Ha'].
    injection Heq as -> Heq. destruct (IH a' Ha Ha' Heq) as [-> ->]. done.
Qed.

Lemma Contains_colon_app (a b : string) :
  strings_Contains (a +:+ ":" +:+ b) ":" = true.
Proof.
  induction a as [|x a IH].
  - by destruct b.
  - change (String x a +:+ ":" +:+ b) with (String x (a +:+ ":" +:+ b)).
    destruct (strings_Contains (String x (a +:+ ":" +:+ b)) ":") eqn:E; [done|].
    apply Contains_colon_cons in E as [_ E]. congruence.
Qed.

Section IDProperties.
Context `{!Stringer ChunkType}.

Lemma ID_never_Err (c : Chunk) (e : error) : ID c ≠ Err e.
Proof.
  unfold ID. repeat case_decide; try done; by destruct (Parent c).
Qed.

Lemma ID_unsupported (c : Chunk) :
  ¬ supported (Type_ c) →
  ID c = Ok ("<unknown:" +:+ String_ (Type_ c) +:+ ">").
Proof.
  intros Hu. unfold ID.
  repeat case_decide; try reflexivity;
    exfalso; apply Hu; unfold supported;
    match goal with H : Type_ c = _ |- _ => rewrite H end; done.
Qed.
End IDProperties.

Section IDInjective.
Context `{!Stringer ChunkType}.

Lemma ID_Messages c : Type_ c = CMessages → ID c = Ok (ChannelID c).
Proof. intros Ht. unfold ID. rewrite Ht. reflexivity. Qed.

Lemma ID_ThreadMessages c :
  Type_ c = CThreadMessages →
  ID c = p ← deref (Parent c); Ok ("t" +:+ ChannelID c +:+ ":" +:+ slack.ThreadTimestamp p).
Proof. intros Ht. unfold ID. rewrite Ht. reflexivity. Qed.

Lemma ID_Files c :
  Type_ c = CFiles →
  ID c = p ← deref (Parent c); Ok ("f" +:+ ChannelID c +:+ ":" +:+ slack.Timestamp p).
Proof. intros Ht. unfold ID. rewrite Ht. reflexivity. Qed.

Lemma ID_Users c : Type_ c = CUsers → ID c = Ok "lusr".
Proof. intros Ht. unfold ID. rewrite Ht. reflexivity. Qed.

Lemma ID_Channels c : Type_ c = CChannels → ID c = Ok "lch".
Proof. intros Ht. unfold ID. rewrite Ht. reflexivity. Qed.

Lemma ID_ChannelInfo c : Type_ c = CChannelInfo → ID c = Ok ("ic" +:+ ChannelID c).
Proof. intros Ht. unfold ID. rewrite Ht. reflexivity. Qed.

Lemma ID_WorkspaceInfo c : Type_ c = CWorkspaceInfo → ID c = Ok "iw".
Proof. intros Ht. unfold ID. rewrite Ht. reflexivity. Qed.

Lemma ID_ChannelUsers c : Type_ c = CChannelUsers → ID c = Ok ("lcu" +:+ ChannelID c).
Proof. intros Ht. unfold ID. rewrite Ht. reflexivity. Qed.

Lemma ID_StarredItems c : Type_ c = CStarredItems → ID c = Ok "ls".
Proof. intros Ht. unfold ID. rewrite Ht. reflexivity. Qed.

Lemma ID_Bookmarks c : Type_ c = CBookmarks → ID c = Ok ("lb" +:+ ChannelID c).
Proof. intros Ht. unfold ID. rewrite Ht. reflexivity. Qed.

Lemma ID_key_shape (c : Chunk) (k : GroupID) :
  supported (Type_ c) → ID c = Ok k → key_shape c k.
Proof.
  intros Hs%supported_cases Hk.
  destruct_or!.
  - rewrite ID_Messages in Hk by done. simplify_eq. by apply shape_Messages.
  - rewrite ID_ThreadMessages in Hk by done.
    destruct (Parent c) as [p|] eqn:Hp; simplify_eq/=. by eapply shape_Thread.
  - rewrite ID_Files in Hk by done.
    destruct (Parent c) as [p|] eqn:Hp; simplify_eq/=. by eapply shape_Files.
  - rewrite ID_Users in Hk by done. simplify_eq. by apply shape_Users.
  - rewrite ID_Channels in Hk by done. simplify_eq. by apply shape_Channels.
  - rewrite ID_ChannelInfo in Hk by done. simplify_eq. by apply shape_ChannelInfo.
  - rewrite ID_WorkspaceInfo in Hk by done. simplify_eq. by apply shape_WorkspaceInfo.
  - rewrite ID_ChannelUsers in Hk by done. simplify_eq. by apply shape_ChannelUsers.
  - rewrite ID_StarredItems in Hk by done. simplify_eq. by apply shape_StarredItems.
  - rewrite ID_Bookmarks in Hk by done. simplify_eq. by apply shape_Bookmarks.
Qed.
End IDInjective.

Section IDAddressing.
Context `{!Stringer ChunkType}.

Lemma plain_no_colon_head (ch rest : string) (a : ascii) :
  plain_channel ch → ch = String a rest →
  a ≠ "i"%char ∧ a ≠ "l"%char ∧ a ≠ ":"%char ∧ strings_Contains rest ":" = false.
Proof.
  intros Hp ->. destruct Hp as [Hc [? ?]].
  apply Contains_colon_cons in Hc as [? ?]. done.
Qed.

Lemma plain_not_composite (ch a b : string) (x : ascii) :
  plain_channel ch → ch ≠ String x (a +:+ ":" +:+ b).
Proof.
  intros Hp Heq. destruct (plain_no_colon_head _ _ _ Hp Heq) as (_ & _ & _ & Hc).
  by rewrite Contains_colon_app in Hc.
Qed.

Lemma shapes_agree (c1 c2 : Chunk) (k : GroupID) :
  plain_channel (ChannelID c1) → plain_channel (ChannelID c2) →
  key_shape c1 k → key_shape c2 k →
  Type_ c1 = Type_ c2 ∧ (static_key (Type_ c1) ∨ same_address c1 c2).
Proof.
  intros Hp1 Hp2 H1 H2.
  destruct H1 as [Ht1 E1|p1 Ht1 Hq1 E1|p1 Ht1 Hq1 E1|Ht1 E1|Ht1 E1|Ht1 E1|Ht1 E1
                 |Ht1 E1|Ht1 E1|Ht1 E1];
  destruct H2 as [Ht2 E2|p2 Ht2 Hq2 E2|p2 Ht2 Hq2 E2|Ht2 E2|Ht2 E2|Ht2 E2|Ht2 E2
                 |Ht2 E2|Ht2 E2|Ht2 E2];
  rewrite E1 in E2; clear E1;
  try discriminate E2;
  try (exfalso; first
    [ by eapply plain_not_composite; [|exact E2]
    | by eapply plain_not_composite; [|symmetry; exact E2]
    | destruct (plain_no_colon_head _ _ _ Hp1 E2) as (? & ? & ? & ?); congruence
    | destruct (plain_no_colon_head _ _ _ Hp2 E2) as (? & ? & ? & ?); congruence
    | symmetry in E2;
      destruct (plain_no_colon_head _ _ _ Hp1 E2) as (? & ? & ? & ?); congruence
    | symmetry in E2;
      destruct (plain_no_colon_head _ _ _ Hp2 E2) as (? & ? & ? & ?); congruence ]);
  (split; [congruence|]);
  try (left; unfold static_key; by auto);
  right; unfold same_address; rewrite Ht1.
  - split_and!; [done|intros [=]..].
  - injection E2 as E2. destruct Hp1 as [Hc1 _], Hp2 as [Hc2 _].
    destruct (colon_split _ _ _ _ Hc1 Hc2 E2) as [Hch Hts].
    rewrite Hq1, Hq2. split_and!; [done|intros _; cbn; congruence|intros [=]].
  - injection E2 as E2. destruct Hp1 as [Hc1 _], Hp2 as [Hc2 _].
    destruct (colon_split _ _ _ _ Hc1 Hc2 E2) as [Hch Hts].
    rewrite Hq1, Hq2. split_and!; [done|intros [=]|intros _; cbn; congruence].
  - injection E2 as E2. split_and!; [done|intros [=]..].
  - injection E2 as E2. split_and!; [done|intros [=]..].
  - injection E2 as E2. split_and!; [done|intros [=]..].
Qed.

(** C4, amended.  The group key is a function of the type, the channel and
    the parent message of a chunk.  Two chunks of supported types whose
    channel identifiers contain no [":"] and do not start with [i] or [l],
    and that derive the same key, have the same type and, unless that type
    has a static key, the same channel and the same parent timestamp. *)
Theorem ID_addressing (c1 c2 : Chunk) :
  (Type_ c1 = Type_ c2 → ChannelID c1 = ChannelID c2 → Parent c1 = Parent c2 →
   ID c1 = ID c2) ∧
  (∀ k : GroupID,
     supported (Type_ c1) → supported (Type_ c2) →
     plain_channel (ChannelID c1) → plain_channel (ChannelID c2) →
     ID c1 = Ok k → ID c2 = Ok k →
     Type_ c1 = Type_ c2 ∧ (static_key (Type_ c1) ∨ same_address c1 c2)).
Proof.
  split.
  - intros Ht Hc Hp. unfold ID. rewrite Ht, Hc, Hp. reflexivity.
  - intros k Hs1 Hs2 Hp1 Hp2 H1 H2.
    eapply shapes_agree; eauto using ID_key_shape.
Qed.
End IDAddressing.

(** ** The claims about the group key *)

(** C3, amended.  The key of a ThreadMessages chunk is ["t"], the channel,
    [":"] and the thread timestamp of the parent message: the prefix carries
    no [":"] of its own. *)
Theorem ID_thread_key `{!Stringer ChunkType} (c : Chunk) (parent : slack.Message) :
  Type_ c = CThreadMessages → Parent c = Some parent →
  ID c = Ok ("t" +:+ ChannelID c +:+ ":" +:+ slack.ThreadTimestamp parent).
Proof. intros Ht Hp. unfold ID. rewrite Ht, Hp. reflexivity. Qed.

Lemma ID_thread_key_witness :
  Type_ scenarioB_chunk = CThreadMessages ∧
  Parent scenarioB_chunk = Some thread_root ∧
  ID scenarioB_chunk = Ok "tC1:1000.001".
Proof.
  split; [reflexivity|]. split; [reflexivity|].
  apply (ID_thread_key scenarioB_chunk thread_root); reflexivity.
Defined.

(** C3 as stated fails: the record of scenario B, a ThreadMessages chunk of
    channel [C1] under the thread root [1000.001], does not get the key
    ["t:C1:1000.001"]. *)
Lemma ID_thread_key_counterexample :
  Type_ scenarioB_chunk = CThreadMessages ∧
  ChannelID scenarioB_chunk = "C1" ∧
  slack.ThreadTimestamp <$> Parent scenarioB_chunk = Some "1000.001" ∧
  ID scenarioB_chunk ≠ Ok ("t:" +:+ "C1" +:+ ":" +:+ "1000.001").
Proof. split_and!; [reflexivity..|]. vm_compute. discriminate. Qed.

Lemma ID_addressing_witness :
  Type_ scenarioB_chunk = Type_ (chunk_of CThreadMessages "C1" (Some thread_root) []) ∧
  (static_key (Type_ scenarioB_chunk) ∨
   same_address scenarioB_chunk (chunk_of CThreadMessages "C1" (Some thread_root) [])).
Proof.
  apply (proj2 (ID_addressing scenarioB_chunk
                  (chunk_of CThreadMessages "C1" (Some thread_root) [])) "tC1:1000.001").
  - vm_compute. discriminate.
  - vm_compute. discriminate.
  - split; [reflexivity|]. split; discriminate.
  - split; [reflexivity|]. split; discriminate.
  - reflexivity.
  - reflexivity.
Defined.

(** C4 as stated fails: a Messages chunk of a channel named [icC1] and the
    ChannelInfo chunk of channel [C1] differ in type and channel, neither
    type has a static key, and both get the key ["icC1"]. *)
Lemma ID_addressing_counterexample :
  let c1 := chunk_of CMessages "icC1" None [] in
  let c2 := chunk_of CChannelInfo "C1" None [] in
  Type_ c1 ≠ Type_ c2 ∧ ChannelID c1 ≠ ChannelID c2 ∧
  ¬ static_key (Type_ c1) ∧ ¬ static_key (Type_ c2) ∧
  ID c1 = Ok "icC1" ∧ ID c2 = Ok "icC1".
Proof.
  cbn. split_and!; try reflexivity; try discriminate;
    unfold static_key; intros H; destruct_or!; discriminate.
Qed.

(** C5, amended.  For a chunk whose type is outside the enumerated set the
    derivation returns the placeholder key ["<unknown:"] + the name of the
    type + [">"]; the derivation has no error result for any chunk. *)
Theorem ID_unsupported_placeholder `{!Stringer ChunkType} (c : Chunk) :
  ¬ supported (Type_ c) →
  ID c = Ok ("<unknown:" +:+ String_ (Type_ c) +:+ ">") ∧ ∀ e, ID c ≠ Err e.
Proof. intros Hu. split; [by apply ID_unsupported|]. intros e. apply ID_never_Err. Qed.

Lemma ID_unsupported_placeholder_witness :
  ¬ supported (Type_ unknown_chunk) ∧
  ID unknown_chunk = Ok "<unknown:ChunkType(17)>".
Proof.
  assert (Hu : ¬ supported (Type_ unknown_chunk)) by (vm_compute; intros H; by apply H).
  split; [exact Hu|]. exact (proj1 (ID_unsupported_placeholder unknown_chunk Hu)).
Defined.

(** C5 as stated fails: a chunk of type 17 gets a key and no error, and
    [NewPlayer] files its record under that key. *)
Lemma ID_unsupported_counterexample :
  ¬ supported (Type_ unknown_chunk) ∧
  ID unknown_chunk = Ok "<unknown:ChunkType(17)>" ∧
  (¬ ∃ e, ID unknown_chunk = Err e) ∧
  idx <$> NewPlayer (recorded (λ _, 64%positive) [unknown_chunk])
  = Ok {["<unknown:ChunkType(17)>" := [0%Z]]}.
Proof.
  split_and!.
  - vm_compute. intros H. by apply H.
  - reflexivity.
  - intros [e He]. discriminate He.
  - reflexivity.
Qed.

(** ** Properties of [tryGetChunk] and [hasMore] *)

Section TryGetChunk.
Context `{!Stringer ChunkType}.

(** The loops of [indexRecords] and [ForEach] are written on the input of
    the decoder; one turn of each is one call of [Decode], with the record
    filed under the [InputOffset] read before the call. *)
Lemma indexRecords_loop_Decode (dec : Decoder) (idx : index) :
  broken dec = false →
  indexRecords_loop (input dec) (InputOffset dec) idx =
  match Decode dec with
  | (Ok chunk, dec') =>
      k ← ID chunk;
      indexRecords_loop (input dec') (InputOffset dec')
        (<[k := default [] (idx !! k) ++ [InputOffset dec]]> idx)
  | (Err e, _) => if decide (e = EOF) then Ok idx else Err e
  | (Panicked, _) => Panicked
  end.
Proof.
  intros Hb. unfold Decode. rewrite Hb.
  destruct (input dec) as [|f rest]; [done|]. simpl.
  by destruct (content f).
Qed.

Lemma ForEach_loop_Decode {S} (fn : option Chunk → S → result S)
    (dec : Decoder) (s : S) :
  broken dec = false →
  ForEach_loop fn (input dec) s =
  match Decode dec with
  | (Ok chunk, dec') => s' ← fn (Some chunk) s; ForEach_loop fn (input dec') s'
  | (Err e, _) => if decide (e = EOF) then Ok s else Err e
  | (Panicked, _) => Panicked
  end.
Proof.
  intros Hb. unfold Decode. rewrite Hb.
  destruct (input dec) as [|f rest]; [done|]. simpl.
  by destruct (content f).
Qed.

Lemma tryGetChunk_not_found (p : Player) (id : GroupID) :
  idx p !! id = None → tryGetChunk p id = (Err ErrNotFound, p).
Proof. intros Hn. unfold tryGetChunk. by rewrite Hn. Qed.

Lemma tryGetChunk_exhausted (p : Player) (id : GroupID) (offs : list Z) :
  idx p !! id = Some offs → length offs ≤ cursor p id →
  (tryGetChunk p id).1 = Err EOF.
Proof.
  intros Hi Hc. unfold tryGetChunk, cursor in *. rewrite Hi.
  by rewrite decide_True.
Qed.

(** The cursor table after the first lines of [tryGetChunk]: the entry of
    the key is initialised, which does not move any cursor. *)
Lemma cursor_init (ptrs : offsets) (id id' : GroupID) :
  default 0 (match ptrs !! id with
             | Some _ => ptrs
             | None => <[id := 0]> ptrs
             end !! id') = default 0 (ptrs !! id').
Proof.
  destruct (ptrs !! id) eqn:E; [done|].
  destruct (decide (id = id')) as [<-|Hne].
  - by rewrite lookup_insert_eq, E.
  - by rewrite lookup_insert_ne.
Qed.

Lemma tryGetChunk_idx (p : Player) (id : GroupID) :
  idx (tryGetChunk p id).2 = idx p.
Proof.
  unfold tryGetChunk. destruct (idx p !! id); [|done].
  case_decide; [done|].
  destruct (Seek _ _) as [[?|?|] ?]; [|done..].
  by destruct (Decode _) as [[?|?|] ?].
Qed.

Lemma Seek_frames (s : ReadSeeker) (off : Z) :
  frames (Seek s off).2 = frames s ∧ closed (Seek s off).2 = closed s.
Proof. unfold Seek. by destruct (closed s || (off <? 0)%Z). Qed.

Lemma tryGetChunk_frames (p : Player) (id : GroupID) :
  frames (rs (tryGetChunk p id).2) = frames (rs p) ∧
  closed (rs (tryGetChunk p id).2) = closed (rs p).
Proof.
  unfold tryGetChunk. destruct (idx p !! id) as [offs|]; [|done].
  case_decide; [done|].
  pose proof (Seek_frames (rs p) (default 0%Z (offs !! default 0 (pointer p !! id)))) as Hs.
  destruct (Seek _ _) as [[?|?|] rs1]; simpl in Hs; [|done..].
  by destruct (Decode _) as [[?|?|] ?].
Qed.

Lemma tryGetChunk_no_panic (p : Player) (id : GroupID) :
  (tryGetChunk p id).1 ≠ Panicked.
Proof.
  unfold tryGetChunk. destruct (idx p !! id) as [offs|]; [|done].
  case_decide; [done|].
  unfold Seek. destruct (closed (rs p) || _) eqn:Hc; [done|]. simpl.
  unfold Decode, json_NewDecoder; simpl.
  destruct (closed (rs p)); [done|]. simpl.
  destruct (frames_from _ _) as [|f ?]; [done|]. simpl.
  by destruct (content f).
Qed.

(** A failed read moves no cursor. *)
Lemma tryGetChunk_Err_cursor (p : Player) (id : GroupID) (e : error) :
  (tryGetChunk p id).1 = Err e →
  ∀ id', cursor (tryGetChunk p id).2 id' = cursor p id'.
Proof.
  unfold tryGetChunk, cursor. destruct (idx p !! id) as [offs|]; [|done].
  case_decide.
  - intros _ id'. simpl. apply cursor_init.
  - destruct (Seek _ _) as [[?|?|] rs1]; simpl.
    + destruct (Decode _) as [[?|?|] ?]; simpl; [done| |done].
      intros _ id'. apply cursor_init.
    + intros _ id'. apply cursor_init.
    + done.
Qed.

(** A successful read moves the cursor of its key by one, and no other. *)
Lemma tryGetChunk_Ok_cursor (p : Player) (id : GroupID) (c : Chunk) :
  (tryGetChunk p id).1 = Ok c →
  cursor (tryGetChunk p id).2 id = S (cursor p id) ∧
  ∀ id', id' ≠ id → cursor (tryGetChunk p id).2 id' = cursor p id'.
Proof.
  unfold tryGetChunk, cursor. destruct (idx p !! id) as [offs|]; [|done].
  case_decide; [done|].
  destruct (Seek _ _) as [[?|?|] rs1]; simpl; [|done..].
  destruct (Decode _) as [[?|?|] ?]; simpl; [|done..].
  intros _. split.
  - rewrite lookup_insert_eq. simpl. f_equal. apply cursor_init.
  - intros id' Hne. rewrite lookup_insert_ne by done. apply cursor_init.
Qed.

Lemma hasMore_true (p : Player) (id : GroupID) :
  hasMore p id = true ↔
  ∃ offs, idx p !! id = Some offs ∧
          (pointer p !! id = None ∨
           ∃ ptr, pointer p !! id = Some ptr ∧ ptr < length offs).
Proof.
  unfold hasMore. destruct (idx p !! id) as [offs|].
  - destruct (pointer p !! id) as [ptr|].
    + rewrite bool_decide_eq_true. split.
      * intros Hlt. exists offs. split; [done|]. right. by exists ptr.
      * intros (offs' & ? & [|(ptr' & ? & ?)]); by simplify_eq.
    + split; [|done]. intros _. exists offs. by split; [|left].
  - split; [done|]. by intros (offs & ? & _).
Qed.
End TryGetChunk.

(** ** The claims about reads and cursors *)

(** C2.  For a key of the index whose records have all been consumed (its
    cursor has reached the end of its offset list) the next read fails with
    [io.EOF], the error by which [tryGetChunk] reports exhaustion, and for a
    key that is absent from the index every read fails with [ErrNotFound];
    neither error is, or wraps, the other. *)
Theorem tryGetChunk_exhausted_or_not_found (p : Player) (id : GroupID) :
  (∀ offs, idx p !! id = Some offs → length offs ≤ cursor p id →
     (tryGetChunk p id).1 = Err EOF ∧ (tryGetChunk p id).1 ≠ Err ErrNotFound) ∧
  (idx p !! id = None →
     (tryGetChunk p id).1 = Err ErrNotFound ∧ (tryGetChunk p id).1 ≠ Err EOF) ∧
  errors_Is EOF ErrNotFound = false ∧ errors_Is ErrNotFound EOF = false.
Proof.
  split_and!; [| |done..].
  - intros offs Hi Hc. rewrite (tryGetChunk_exhausted p id offs Hi Hc). done.
  - intros Hn. rewrite (tryGetChunk_not_found p id Hn). done.
Qed.

Lemma tryGetChunk_exhausted_or_not_found_witness :
  (tryGetChunk scenarioB_player "tC1:1000.001").1 = Ok scenarioB_chunk ∧
  (idx scenarioB_drained !! "tC1:1000.001" = Some [0%Z] ∧
   length [0%Z] ≤ cursor scenarioB_drained "tC1:1000.001" ∧
   (tryGetChunk scenarioB_drained "tC1:1000.001").1 = Err EOF) ∧
  (idx scenarioB_drained !! "tC1:9999.999" = None ∧
   (tryGetChunk scenarioB_drained "tC1:9999.999").1 = Err ErrNotFound).
Proof.
  split; [reflexivity|]. split.
  - split; [reflexivity|]. split; [vm_compute; lia|].
    apply (proj1 (tryGetChunk_exhausted_or_not_found scenarioB_drained "tC1:1000.001")
             [0%Z]); [reflexivity|vm_compute; lia].
  - split; [reflexivity|].
    apply (proj1 (proj2 (tryGetChunk_exhausted_or_not_found scenarioB_drained
                           "tC1:9999.999"))); reflexivity.
Defined.

(** C7, amended.  [hasMore] answers true exactly for a key of the index that
    is absent from the cursor table or whose cursor has not reached the end
    of its offset list; it answers false for every key that is absent from
    the index, accessed or not, and for a key whose records are exhausted. *)
Theorem hasMore_spec (p : Player) (id : GroupID) :
  (hasMore p id = true ↔
   ∃ offs, idx p !! id = Some offs ∧
           (pointer p !! id = None ∨
            ∃ ptr, pointer p !! id = Some ptr ∧ ptr < length offs)) ∧
  (hasMore p id = false ↔
   idx p !! id = None ∨
   ∃ offs ptr, idx p !! id = Some offs ∧ pointer p !! id = Some ptr ∧ length offs ≤ ptr).
Proof.
  split; [apply hasMore_true|].
  unfold hasMore. destruct (idx p !! id) as [offs|]; [|by split; auto].
  destruct (pointer p !! id) as [ptr|].
  - rewrite bool_decide_eq_false. split.
    + intros Hn. right. exists offs, ptr. split_and!; [done..|lia].
    + intros [|(offs' & ptr' & ? & ? & ?)]; [done|]. simplify_eq. lia.
  - split; [done|]. intros [|(offs' & ptr' & ? & ? & ?)]; done.
Qed.

(** C7 as stated fails: a key that has never been accessed, and so is absent
    from the cursor table, gets the answer false when it is not in the index. *)
Lemma hasMore_counterexample :
  NewPlayer (recorded (λ _, 64%positive) []) = Ok empty_player ∧
  pointer empty_player !! "C1" = None ∧
  hasMore empty_player "C1" = false.
Proof. split_and!; reflexivity. Qed.

(** C10.  When [tryGetChunk] returns an error, no cursor has moved and the
    index and the stream contents are the same, so the next read for the key
    seeks to the same offset. *)
Theorem tryGetChunk_error_keeps_cursor (p : Player) (id : GroupID) (e : error) :
  (tryGetChunk p id).1 = Err e →
  cursor (tryGetChunk p id).2 id = cursor p id ∧
  (∀ id', cursor (tryGetChunk p id).2 id' = cursor p id') ∧
  idx (tryGetChunk p id).2 = idx p ∧
  frames (rs (tryGetChunk p id).2) = frames (rs p) ∧
  next_offset (tryGetChunk p id).2 id = next_offset p id.
Proof.
  intros He.
  pose proof (tryGetChunk_Err_cursor p id e He) as Hc.
  pose proof (tryGetChunk_idx p id) as Hi.
  split_and!; [apply Hc|apply Hc|apply Hi|apply tryGetChunk_frames|].
  unfold next_offset. by rewrite Hi, Hc.
Qed.

Lemma tryGetChunk_error_keeps_cursor_witness :
  ((tryGetChunk misaligned_player "tC1:1000.001").1 = Err (ErrDecodeAt 7 ErrSyntax) ∧
   cursor (tryGetChunk misaligned_player "tC1:1000.001").2 "tC1:1000.001"
   = cursor misaligned_player "tC1:1000.001" ∧
   next_offset (tryGetChunk misaligned_player "tC1:1000.001").2 "tC1:1000.001"
   = next_offset misaligned_player "tC1:1000.001") ∧
  ((tryGetChunk closed_player "tC1:1000.001").1 = Err ErrIO ∧
   cursor (tryGetChunk closed_player "tC1:1000.001").2 "tC1:1000.001"
   = cursor closed_player "tC1:1000.001") ∧
  ((tryGetChunk scenarioB_drained "tC1:1000.001").1 = Err EOF ∧
   cursor (tryGetChunk scenarioB_drained "tC1:1000.001").2 "tC1:1000.001"
   = cursor scenarioB_drained "tC1:1000.001").
Proof.
  split; [|split].
  - split; [reflexivity|].
    destruct (tryGetChunk_error_keeps_cursor misaligned_player "tC1:1000.001"
                (ErrDecodeAt 7 ErrSyntax) eq_refl) as (H1 & _ & _ & _ & H5).
    split; [exact H1|exact H5].
  - split; [reflexivity|].
    exact (proj1 (tryGetChunk_error_keeps_cursor closed_player "tC1:1000.001"
                    ErrIO eq_refl)).
  - split; [reflexivity|].
    exact (proj1 (tryGetChunk_error_keeps_cursor scenarioB_drained "tC1:1000.001"
                    EOF eq_refl)).
Defined.

(** ** Properties of the replay server *)

Section Server.

Lemma tryGetChunk_EOF_inv (p : Player) (id : GroupID) :
  (tryGetChunk p id).1 = Err EOF →
  ∃ offs, idx p !! id = Some offs ∧ length offs ≤ cursor p id.
Proof.
  unfold tryGetChunk, cursor. destruct (idx p !! id) as [offs|]; [|done].
  case_decide; [by eauto|].
  unfold Seek. destruct (closed (rs p) || _); [done|]. simpl.
  by destruct (Decode _) as [[?|?|] ?].
Qed.

Lemma tryGetChunk_NotFound_inv (p : Player) (id : GroupID) :
  (tryGetChunk p id).1 = Err ErrNotFound → idx p !! id = None.
Proof.
  unfold tryGetChunk. destruct (idx p !! id) as [offs|]; [|done].
  case_decide; [done|].
  unfold Seek. destruct (closed (rs p) || _); [done|]. simpl.
  by destruct (Decode _) as [[?|?|] ?].
Qed.

(** After a read that failed with [io.EOF] or [ErrNotFound], [hasMore]
    answers false for the key. *)
Lemma hasMore_after_EOF (p : Player) (id : GroupID) :
  (tryGetChunk p id).1 = Err EOF → hasMore (tryGetChunk p id).2 id = false.
Proof.
  intros He. destruct (tryGetChunk_EOF_inv p id He) as (offs & Hi & Hc).
  unfold tryGetChunk, cursor in *. rewrite Hi. rewrite decide_True by done.
  unfold hasMore. simpl. rewrite Hi.
  destruct (pointer p !! id) as [ptr|] eqn:Hp; simpl in *.
  - rewrite Hp. apply bool_decide_eq_false. lia.
  - rewrite lookup_insert_eq. apply bool_decide_eq_false. lia.
Qed.

Lemma hasMore_after_NotFound (p : Player) (id : GroupID) :
  (tryGetChunk p id).1 = Err ErrNotFound → hasMore (tryGetChunk p id).2 id = false.
Proof.
  intros He. pose proof (tryGetChunk_NotFound_inv p id He) as Hi.
  rewrite (tryGetChunk_not_found p id Hi). unfold hasMore. simpl. by rewrite Hi.
Qed.

(** An accessor fails exactly as the read under it. *)
Lemma project_Err {A} (r : result Chunk) (f : Chunk → A) (e : error) :
  (chunk ← r; Ok (f chunk)) = Err e ↔ r = Err e.
Proof. destruct r; simpl; split; congruence. Qed.

Lemma Messages_Err (p : Player) (ch : string) (e : error) :
  (Messages_ p ch).1 = Err e ↔ (tryGetChunk p ch).1 = Err e.
Proof. unfold Messages_. destruct (tryGetChunk p ch). apply project_Err. Qed.

Lemma Thread_Err (p : Player) (ch ts : string) (e : error) :
  (Thread p ch ts).1 = Err e ↔ (tryGetChunk p (threadID ch ts)).1 = Err e.
Proof. unfold Thread. destruct (tryGetChunk p _). apply project_Err. Qed.

Lemma Thread_player (p : Player) (ch ts : string) :
  (Thread p ch ts).2 = (tryGetChunk p (threadID ch ts)).2.
Proof. unfold Thread. by destruct (tryGetChunk p _). Qed.

End Server.

(** ** The claim about the replay server *)

(** C6, amended.  The history endpoint answers a not-found of the player
    with a 404 and an exhaustion with a success envelope that has no items
    and [has_more] false; the info endpoint answers a not-found with a 404.
    The replies endpoint answers both with status 200 and an envelope whose
    [ok] flag is false, without items and with [has_more] false; the two
    list endpoints answer an exhaustion with an envelope whose [ok] flag is
    false and a not-found with status 500. *)
Theorem handlers_error_translation (p : Player) (channel timestamp : string) :
  channel ≠ "" → timestamp ≠ "" →
  ((Messages_ p channel).1 = Err ErrNotFound →
   (chunktest.handleConversationsHistory p channel).1 = chunktest.NotFound) ∧
  ((Messages_ p channel).1 = Err EOF →
   (chunktest.handleConversationsHistory p channel).1
   = chunktest.JSON (chunktest.HistoryResponse chunktest.ok_response false "" [])) ∧
  ((ChannelInfo p channel).1 = Err ErrNotFound →
   (chunktest.handleConversationsInfo p channel).1 = chunktest.NotFound) ∧
  ((Thread p channel timestamp).1 = Err ErrNotFound →
   (chunktest.handleConversationsReplies p channel timestamp).1
   = chunktest.JSON
       (chunktest.RepliesResponse
          (chunktest.mkSlackResponse false (chunktest.ErrorText ErrNotFound) "")
          false (chunktest.FormatInt (Offset (Thread p channel timestamp).2)) [])) ∧
  ((Thread p channel timestamp).1 = Err EOF →
   (chunktest.handleConversationsReplies p channel timestamp).1
   = chunktest.JSON
       (chunktest.RepliesResponse
          (chunktest.mkSlackResponse false
             (chunktest.Lit ("thread_not_found[" +:+ channel +:+ ":" +:+ timestamp +:+ "]"))
             "")
          false (chunktest.FormatInt (Offset (Thread p channel timestamp).2)) [])) ∧
  ((Channels_ p).1 = Err ErrNotFound →
   (chunktest.handleConversationsList p).1
   = chunktest.HttpError chunktest.StatusInternalServerError
       (chunktest.ErrorText ErrNotFound)) ∧
  ((Channels_ p).1 = Err EOF →
   (chunktest.handleConversationsList p).1
   = chunktest.JSON
       (chunktest.ChannelResponse
          (chunktest.mkSlackResponse false (chunktest.Lit "") "") [])) ∧
  ((Users_ p).1 = Err ErrNotFound →
   (chunktest.handleUsersList p).1
   = chunktest.HttpError chunktest.StatusInternalServerError
       (chunktest.ErrorText ErrNotFound)) ∧
  ((Users_ p).1 = Err EOF →
   (chunktest.handleUsersList p).1
   = chunktest.JSON
       (chunktest.UserResponseFull
          (chunktest.mkSlackResponse false (chunktest.Lit "pagination complete") "") [])).
Proof.
  intros Hch Hts. split_and!.
  - unfold chunktest.handleConversationsHistory. rewrite decide_False by done.
    destruct (Messages_ p channel) as [r p']. simpl. by intros ->.
  - unfold chunktest.handleConversationsHistory. rewrite decide_False by done.
    destruct (Messages_ p channel) as [r p']. simpl. by intros ->.
  - unfold chunktest.handleConversationsInfo. rewrite decide_False by done.
    destruct (ChannelInfo p channel) as [r p']. simpl. by intros ->.
  - intros He. pose proof He as He'. apply Thread_Err in He'.
    apply hasMore_after_NotFound in He'. rewrite <- Thread_player in He'.
    unfold chunktest.handleConversationsReplies. rewrite decide_False by done.
    unfold HasMoreThreads.
    destruct (Thread p channel timestamp) as [r p']. simpl in *. subst r.
    simpl. by rewrite He'.
  - intros He. pose proof He as He'. apply Thread_Err in He'.
    apply hasMore_after_EOF in He'. rewrite <- Thread_player in He'.
    unfold chunktest.handleConversationsReplies. rewrite decide_False by done.
    unfold HasMoreThreads.
    destruct (Thread p channel timestamp) as [r p']. simpl in *. subst r.
    simpl. by rewrite He'.
  - unfold chunktest.handleConversationsList.
    destruct (Channels_ p) as [r p']. simpl. by intros ->.
  - unfold chunktest.handleConversationsList.
    destruct (Channels_ p) as [r p']. simpl. by intros ->.
  - unfold chunktest.handleUsersList.
    destruct (Users_ p) as [r p']. simpl. by intros ->.
  - unfold chunktest.handleUsersList.
    destruct (Users_ p) as [r p']. simpl. by intros ->.
Qed.

Lemma handlers_error_translation_witness :
  ("C1" ≠ "" ∧ "1000.001" ≠ "") ∧
  ((Messages_ scenarioB_drained "C1").1 = Err ErrNotFound ∧
   (chunktest.handleConversationsHistory scenarioB_drained "C1").1 = chunktest.NotFound) ∧
  ((Thread scenarioB_drained "C1" "1000.001").1 = Err EOF ∧
   (chunktest.handleConversationsReplies scenarioB_drained "C1" "1000.001").1
   = chunktest.JSON
       (chunktest.RepliesResponse
          (chunktest.mkSlackResponse false
             (chunktest.Lit "thread_not_found[C1:1000.001]") "")
          false "0" [])).
Proof.
  assert (H1 : "C1" ≠ "") by discriminate.
  assert (H2 : "1000.001" ≠ "") by discriminate.
  destruct (handlers_error_translation scenarioB_drained "C1" "1000.001" H1 H2)
    as (Ha & _ & _ & _ & Hb & _).
  split; [by split|]. split.
  - split; [reflexivity|]. apply Ha. reflexivity.
  - split; [reflexivity|]. apply Hb. reflexivity.
Defined.

(** C6 as stated fails.  Over a log without a Users record the users
    endpoint answers the not-found of the player with status 500, not with a
    404; and once the thread of scenario B is exhausted, the replies endpoint
    answers with an envelope whose [ok] flag is false, which is an error
    response and not a success envelope. *)
Lemma handlers_error_translation_counterexample :
  ((Users_ empty_player).1 = Err ErrNotFound ∧
   (chunktest.handleUsersList empty_player).1
   = chunktest.HttpError 500 (chunktest.ErrorText ErrNotFound) ∧
   (chunktest.handleUsersList empty_player).1 ≠ chunktest.NotFound) ∧
  ((Thread scenarioB_drained "C1" "1000.001").1 = Err EOF ∧
   chunktest.error_response
     (chunktest.handleConversationsReplies scenarioB_drained "C1" "1000.001").1 ∧
   ¬ chunktest.empty_success
       (chunktest.handleConversationsReplies scenarioB_drained "C1" "1000.001").1).
Proof.
  split; split_and!; try reflexivity.
  - discriminate.
  - vm_compute. intros (H & _). discriminate H.
Qed.

(** ** Properties of [AllChannelIDs] *)

Section AllChannelIDs.
(** What the function returns: the keys of the index that contain no
    [":"] and do not start with ["ci"], sorted. *)
Lemma AllChannelIDs_elem (p : Player) (id : GroupID) :
  id ∈ AllChannelIDs p ↔ is_Some (idx p !! id) ∧ is_channel_key id = true.
Proof.
  unfold AllChannelIDs. rewrite merge_sort_Permutation.
  rewrite list_elem_of_filter, list_elem_of_fmap. split.
  - intros [Hk ([k offs] & -> & Hin)]. split; [|done].
    apply elem_of_map_to_list in Hin. simpl. by rewrite Hin.
  - intros [[offs Hin] Hk]. split; [done|].
    exists (id, offs). split; [done|]. by apply elem_of_map_to_list.
Qed.

Lemma AllChannelIDs_sorted (p : Player) : Sorted String.le (AllChannelIDs p).
Proof. apply (Sorted_merge_sort String.le). Qed.
End AllChannelIDs.

(** C8.  The log below holds a Messages record and the ChannelInfo record of
    channel [C1] and a Users record.  [AllChannelIDs] lists the key ["icC1"]
    of the info record and the static key ["lusr"] of the user list next to
    the channel [C1]: the keys carry no [":"] after their prefix, and the
    prefix that the function tests for is ["ci"], not ["ic"]. *)
Theorem AllChannelIDs_lists_info_and_list_keys :
  NewPlayer channels_log = Ok channels_player ∧
  ID (chunk_of CChannelInfo "C1" None []) = Ok "icC1" ∧
  ID (chunk_of CUsers "" None []) = Ok "lusr" ∧
  AllChannelIDs channels_player = ["C1"; "icC1"; "lusr"].
Proof. split_and!; vm_compute; reflexivity. Qed.

(** ** Properties of the state ledger *)

Section Ledger.
Lemma HasMessage_AddMessage (s : state.State) (ch0 ts0 ch ts : string) :
  state.HasMessage (state.AddMessage s ch0 ts0) ch ts ↔
  (ch = ch0 ∧ ts = ts0) ∨ state.HasMessage s ch ts.
Proof.
  unfold state.HasMessage, state.AddMessage. simpl.
  destruct (decide (ch0 = ch)) as [->|Hne].
  - rewrite lookup_insert_eq. simpl. set_solver.
  - rewrite lookup_insert_ne by done. naive_solver.
Qed.

Lemma HasThread_AddThread (s : state.State) (ch0 thr0 ts0 ch thr ts : string) :
  state.HasThread (state.AddThread s ch0 thr0 ts0) ch thr ts ↔
  (ch = ch0 ∧ thr = thr0 ∧ ts = ts0) ∨ state.HasThread s ch thr ts.
Proof.
  unfold state.HasThread, state.AddThread. simpl.
  destruct (decide ((ch0, thr0) = (ch, thr))) as [[= -> ->]|Hne].
  - rewrite lookup_insert_eq. simpl. set_solver.
  - rewrite lookup_insert_ne by done. naive_solver.
Qed.

Lemma FilePath_AddFile (s : state.State) (ch0 f0 path0 ch f : string) :
  state.FilePath (state.AddFile s ch0 f0 path0) ch f =
  if decide (ch = ch0 ∧ f = f0) then Some path0 else state.FilePath s ch f.
Proof.
  unfold state.FilePath, state.AddFile. simpl.
  destruct (decide (ch0 = ch)) as [->|Hne].
  - rewrite lookup_insert_eq. simpl.
    destruct (decide (f0 = f)) as [->|Hnf].
    + rewrite lookup_insert_eq. by rewrite decide_True.
    + rewrite lookup_insert_ne by done. rewrite decide_False; [done|].
      by intros [_ ->].
  - rewrite lookup_insert_ne by done. rewrite decide_False; [done|].
    by intros [-> _].
Qed.
End Ledger.

Section StateLoops.
Lemma addMessages_fold (ch0 : string) (ms : list slack.Message) (s : state.State) :
  let s' := foldl (λ s m, state.AddMessage s ch0 (slack.Timestamp m)) s ms in
  (∀ ch ts, state.HasMessage s' ch ts ↔
            state.HasMessage s ch ts ∨
            (ch = ch0 ∧ ∃ m, m ∈ ms ∧ slack.Timestamp m = ts)) ∧
  state.Threads s' = state.Threads s ∧ state.Files s' = state.Files s.
Proof.
  revert s. induction ms as [|m ms IH]; intros s; simpl.
  - split; [|done]. intros ch ts. split; [by left|].
    intros [?|(_ & m & Hm & _)]; [done|]. by apply elem_of_nil in Hm.
  - destruct (IH (state.AddMessage s ch0 (slack.Timestamp m))) as (IH1 & IH2 & IH3).
    split; [|done]. intros ch ts. rewrite IH1, HasMessage_AddMessage.
    split.
    + intros [[[-> ->]|?]|(-> & m' & Hm' & <-)].
      * right. split; [done|]. exists m. split; [left|done].
      * by left.
      * right. split; [done|]. exists m'. split; [by right|done].
    + intros [?|(-> & m' & Hm' & <-)]; [by left; right|].
      apply elem_of_cons in Hm' as [->|Hm'].
      * left. by left.
      * right. split; [done|]. by exists m'.
Qed.

Lemma addThreads_fold (ev : Chunk) (parent : slack.Message)
    (ms : list slack.Message) (s : state.State) :
  Parent ev = Some parent →
  ∃ s', addThreads s ev ms = Ok s' ∧
    (∀ ch thr ts, state.HasThread s' ch thr ts ↔
                  state.HasThread s ch thr ts ∨
                  (ch = ChannelID ev ∧ thr = slack.ThreadTimestamp parent ∧
                   ∃ m, m ∈ ms ∧ slack.Timestamp m = ts)) ∧
    state.Channels s' = state.Channels s ∧ state.Files s' = state.Files s.
Proof.
  intros Hp. revert s. induction ms as [|m ms IH]; intros s; simpl.
  - exists s. split; [done|]. split; [|done]. intros ch thr ts. split; [by left|].
    intros [?|(_ & _ & m & Hm & _)]; [done|]. by apply elem_of_nil in Hm.
  - rewrite Hp. simpl.
    destruct (IH (state.AddThread s (ChannelID ev) (slack.ThreadTimestamp parent)
                    (slack.Timestamp m))) as (s' & Hs' & IH1 & IH2 & IH3).
    exists s'. split; [done|]. split; [|done].
    intros ch thr ts. rewrite IH1, HasThread_AddThread. split.
    + intros [[(-> & -> & ->)|?]|(-> & -> & m' & Hm' & <-)].
      * right. split_and!; [done..|]. exists m. split; [left|done].
      * by left.
      * right. split_and!; [done..|]. exists m'. split; [by right|done].
    + intros [?|(-> & -> & m' & Hm' & <-)]; [by left; right|].
      apply elem_of_cons in Hm' as [->|Hm'].
      * left. by left.
      * right. split_and!; [done..|]. by exists m'.
Qed.

Lemma addFiles_fold (ch0 : string) (fs : list slack.File) (s : state.State) :
  let s' := foldl (λ s f, state.AddFile s ch0 (slack.ID f) "") s fs in
  (∀ ch fid, state.FilePath s' ch fid =
             if decide (ch = ch0 ∧ fid ∈ slack.ID <$> fs) then Some ""
             else state.FilePath s ch fid) ∧
  state.Channels s' = state.Channels s ∧ state.Threads s' = state.Threads s.
Proof.
  revert s. induction fs as [|f fs IH]; intros s; simpl.
  - split; [|done]. intros ch fid. rewrite decide_False; [done|].
    intros [_ Hf]. by apply elem_of_nil in Hf.
  - destruct (IH (state.AddFile s ch0 (slack.ID f) "")) as (IH1 & IH2 & IH3).
    split; [|done]. intros ch fid. rewrite IH1, FilePath_AddFile.
    repeat case_decide; try done; exfalso; set_solver.
Qed.
End StateLoops.

Section StateStep.
Lemma captured_message_snoc (cs : list Chunk) (c : Chunk) (ch ts : string) :
  captured_message (cs ++ [c]) ch ts ↔
  captured_message cs ch ts ∨
  (Type_ c = CMessages ∧ ChannelID c = ch ∧
   ∃ m, m ∈ Messages c ∧ slack.Timestamp m = ts).
Proof.
  unfold captured_message. split.
  - intros (c' & m & Hc & Ht & Hch & Hm & Hts).
    apply elem_of_app in Hc as [Hc|Hc%list_elem_of_singleton]; [left|right; subst c'];
      eauto 10.
  - intros [(c' & m & Hc & ?)|(Ht & Hch & m & Hm & Hts)].
    + exists c', m. rewrite elem_of_app. by auto.
    + exists c, m. rewrite elem_of_app, list_elem_of_singleton. by auto.
Qed.

Lemma captured_reply_snoc (cs : list Chunk) (c : Chunk) (ch thr ts : string) :
  captured_reply (cs ++ [c]) ch thr ts ↔
  captured_reply cs ch thr ts ∨
  (Type_ c = CThreadMessages ∧ ChannelID c = ch ∧
   ∃ parent, Parent c = Some parent ∧ slack.ThreadTimestamp parent = thr ∧
             ∃ m, m ∈ Messages c ∧ slack.Timestamp m = ts).
Proof.
  unfold captured_reply. split.
  - intros (c' & par & m & Hc & Ht & Hch & Hp & Hthr & Hm & Hts).
    apply elem_of_app in Hc as [Hc|Hc%list_elem_of_singleton]; [left|right; subst c'];
      eauto 12.
  - intros [(c' & par & m & Hc & ?)|(Ht & Hch & par & Hp & Hthr & m & Hm & Hts)].
    + exists c', par, m. rewrite elem_of_app. by auto.
    + exists c, par, m. rewrite elem_of_app, list_elem_of_singleton. by auto 10.
Qed.

Lemma captured_file_snoc (cs : list Chunk) (c : Chunk) (ch fid : string) :
  captured_file (cs ++ [c]) ch fid ↔
  captured_file cs ch fid ∨
  (Type_ c = CFiles ∧ ChannelID c = ch ∧ fid ∈ slack.ID <$> Files c).
Proof.
  unfold captured_file. rewrite list_elem_of_fmap. split.
  - intros (c' & f & Hc & Ht & Hch & Hf & Hid).
    apply elem_of_app in Hc as [Hc|Hc%list_elem_of_singleton]; [left|right; subst c'];
      eauto 10.
  - intros [(c' & f & Hc & ?)|(Ht & Hch & f & Hid & Hf)].
    + exists c', f. rewrite elem_of_app. by auto.
    + exists c, f. rewrite elem_of_app, list_elem_of_singleton. by auto.
Qed.

Lemma ledger_of_nil (name : string) : ledger_of [] (state.New name).
Proof.
  unfold ledger_of, state.HasMessage, state.HasThread, state.FilePath,
    captured_message, captured_reply, captured_file. simpl.
  split_and!.
  - intros ch ts. rewrite lookup_empty. simpl. split; [set_solver|].
    intros (c & _ & Hc & _). by apply elem_of_nil in Hc.
  - intros ch thr ts. rewrite lookup_empty. simpl. split; [set_solver|].
    intros (c & _ & _ & Hc & _). by apply elem_of_nil in Hc.
  - intros ch fid path. rewrite lookup_empty. simpl. rewrite lookup_empty.
    split; [done|]. intros (_ & c & _ & Hc & _). by apply elem_of_nil in Hc.
Qed.

(** One call of the callback of [State] adds what its record holds. *)
Lemma State_fn_step (cs : list Chunk) (c : Chunk) (s : state.State) :
  ledger_of cs s → has_parent c →
  ∃ s', State_fn (Some c) s = Ok s' ∧ ledger_of (cs ++ [c]) s'.
Proof.
  intros (Lm & Lt & Lf) Hp. unfold State_fn.
  destruct (decide (Type_ c = CFiles)) as [Hf|Hf].
  { rewrite decide_False by (rewrite Hf; done).
    simpl. rewrite decide_False by (rewrite Hf; done).
    eexists. split; [done|].
    destruct (addFiles_fold (ChannelID c) (Files c) s) as (F1 & F2 & F3).
    fold (addFiles s c) in F1, F2, F3. split_and!.
    - intros ch ts. rewrite captured_message_snoc, <- Lm.
      unfold state.HasMessage. rewrite F2. split; [by left|].
      intros [?|[Ht _]]; [done|]. by rewrite Hf in Ht.
    - intros ch thr ts. rewrite captured_reply_snoc, <- Lt.
      unfold state.HasThread. rewrite F3. split; [by left|].
      intros [?|[Ht _]]; [done|]. by rewrite Hf in Ht.
    - intros ch fid path. rewrite captured_file_snoc, F1.
      case_decide as Hd.
      + split; [intros [= <-]|intros [-> _]; done].
        split; [done|]. right. by destruct Hd as [-> ?].
      + rewrite Lf. split; [intros [-> ?]; by auto|].
        intros [-> [?|(_ & <- & ?)]]; [done|]. exfalso. by apply Hd. }
  destruct (decide (Type_ c = CThreadMessages)) as [Ht|Ht].
  { destruct Hp as [parent Hp]; [by left|].
    destruct (addThreads_fold c parent (Messages c) s Hp) as (s' & Hs' & T1 & T2 & T3).
    rewrite Hs'. simpl. rewrite decide_False by (rewrite Ht; done).
    exists s'. split; [done|]. split_and!.
    - intros ch ts. rewrite captured_message_snoc, <- Lm.
      unfold state.HasMessage. rewrite T2. split; [by left|].
      intros [?|[Ht' _]]; [done|]. by rewrite Ht in Ht'.
    - intros ch thr ts. rewrite captured_reply_snoc, <- Lt, T1. split.
      + intros [?|(-> & -> & ?)]; [by left|]. right. split_and!; [done..|].
        by exists parent.
      + intros [?|(_ & <- & par & Hpar & <- & ?)]; [by left|].
        rewrite Hp in Hpar. injection Hpar as <-. by right.
    - intros ch fid path. rewrite captured_file_snoc.
      unfold state.FilePath. rewrite T3. fold (state.FilePath s ch fid).
      rewrite Lf. split; [intros [-> ?]; by auto|].
      intros [-> [?|(Hf' & _)]]; [done|]. by rewrite Ht in Hf'. }
  simpl.
  destruct (decide (Type_ c = CMessages)) as [Hm|Hm].
  { eexists. split; [done|].
    destruct (addMessages_fold (ChannelID c) (Messages c) s) as (M1 & M2 & M3).
    fold (addMessages s c) in M1, M2, M3. split_and!.
    - intros ch ts. rewrite captured_message_snoc, <- Lm, M1. split.
      + intros [?|(-> & ?)]; [by left|]. by right.
      + intros [?|(_ & <- & ?)]; [by left|]. by right.
    - intros ch thr ts. rewrite captured_reply_snoc, <- Lt.
      unfold state.HasThread. rewrite M2. split; [by left|].
      intros [?|[Ht' _]]; [done|]. by rewrite Hm in Ht'.
    - intros ch fid path. rewrite captured_file_snoc.
      unfold state.FilePath. rewrite M3. fold (state.FilePath s ch fid).
      rewrite Lf. split; [intros [-> ?]; by auto|].
      intros [-> [?|(Hf' & _)]]; [done|]. by rewrite Hm in Hf'. }
  exists s. split; [done|]. split_and!.
  - intros ch ts. rewrite captured_message_snoc, <- Lm. split; [by left|].
    intros [?|[? _]]; done.
  - intros ch thr ts. rewrite captured_reply_snoc, <- Lt. split; [by left|].
    intros [?|[? _]]; done.
  - intros ch fid path. rewrite captured_file_snoc, Lf.
    split; [intros [-> ?]; by auto|]. intros [-> [?|[? _]]]; done.
Qed.

(** The loop of [ForEach] with the callback of [State], over the records
    of a log. *)
Lemma State_loop (enc_size : Chunk → positive) (chunks pre : list Chunk)
    (s : state.State) :
  ledger_of pre s → Forall has_parent chunks →
  ∃ s', ForEach_loop State_fn (frames_of enc_size chunks) s = Ok s' ∧
        ledger_of (pre ++ chunks) s'.
Proof.
  revert pre s. induction chunks as [|c chunks IH]; intros pre s Hl Hp.
  - exists s. by rewrite app_nil_r.
  - apply Forall_cons in Hp as [Hc Hp].
    destruct (State_fn_step pre c s Hl Hc) as (s1 & Hs1 & Hl1).
    change (ForEach_loop State_fn (frames_of enc_size (c :: chunks)) s)
      with (s' ← State_fn (Some c) s;
            ForEach_loop State_fn (frames_of enc_size chunks) s').
    rewrite Hs1. simpl.
    destruct (IH (pre ++ [c]) s1 Hl1 Hp) as (s' & Hs' & Hl').
    exists s'. split; [done|]. by rewrite <- app_assoc in Hl'.
Qed.
End StateStep.

(** ** The claim about the state ledger *)

Lemma frames_from_0 (fs : list Frame) : frames_from fs 0 = fs.
Proof. by destruct fs. Qed.

(** C9.  Over a log whose records are [chunks], [State] returns a ledger
    that holds every message timestamp of a Messages record under its
    channel, every reply timestamp of a ThreadMessages record under its
    channel and the thread timestamp of its parent, and every file
    identifier of a Files record under its channel with the empty local
    path; the ledger holds nothing else ([ledger_of]). *)
Theorem State_ledger (enc_size : Chunk → positive) (chunks : list Chunk) (p : Player) :
  frames (rs p) = frames_of enc_size chunks → closed (rs p) = false →
  Forall has_parent chunks →
  ∃ s, (State p).1 = Ok s ∧
    (∀ c m, c ∈ chunks → Type_ c = CMessages → m ∈ Messages c →
       state.HasMessage s (ChannelID c) (slack.Timestamp m)) ∧
    (∀ c parent m, c ∈ chunks → Type_ c = CThreadMessages →
       Parent c = Some parent → m ∈ Messages c →
       state.HasThread s (ChannelID c) (slack.ThreadTimestamp parent)
         (slack.Timestamp m)) ∧
    (∀ c f, c ∈ chunks → Type_ c = CFiles → f ∈ Files c →
       state.FilePath s (ChannelID c) (slack.ID f) = Some "") ∧
    ledger_of chunks s.
Proof.
  intros Hf Hc Hp.
  destruct (State_loop enc_size chunks [] (state.New (default "" (baseName (rs p))))
              (ledger_of_nil _) Hp) as (s & Hs & Hl).
  exists s. split.
  - unfold State, ForEach, Reset, Seek. rewrite Hc. simpl.
    rewrite frames_from_0, Hf. exact Hs.
  - simpl in Hl. destruct Hl as (Lm & Lt & Lf). split_and!.
    + intros c m Hin Ht Hm. apply Lm. by exists c, m.
    + intros c par m Hin Ht Hpar Hm. apply Lt. by exists c, par, m.
    + intros c f Hin Ht Hfi. apply Lf. split; [done|]. by exists c, f.
    + done.
Qed.

Lemma State_ledger_witness :
  NewPlayer scenarioC_log = Ok scenarioC_player ∧
  ∃ s, (State scenarioC_player).1 = Ok s ∧
       state.HasMessage s "C1" "1.0" ∧ state.HasMessage s "C1" "2.0" ∧
       (∀ ts, state.HasMessage s "C1" ts → ts = "1.0" ∨ ts = "2.0") ∧
       state.FilePath s "C1" "F1" = Some "".
Proof.
  split; [reflexivity|].
  assert (Hp : Forall has_parent scenarioC_chunks).
  { repeat apply Forall_cons_2; [..|apply Forall_nil_2];
      intros [H|H]; try discriminate H; by eexists. }
  destruct (State_ledger (λ _, 64%positive) scenarioC_chunks scenarioC_player
              eq_refl eq_refl Hp) as (s & Hs & Hm & _ & Hf & Hl & _).
  exists s. split; [exact Hs|]. split_and!.
  - apply (Hm (chunk_of CMessages "C1" None [msg "1.0"]) (msg "1.0"));
      [repeat constructor|reflexivity|repeat constructor].
  - apply (Hm (chunk_of CMessages "C1" None [msg "2.0"]) (msg "2.0"));
      [repeat constructor|reflexivity|repeat constructor].
  - intros ts (c & m & Hc & Ht & _ & Hin & <-)%Hl.
    unfold scenarioC_chunks in Hc.
    repeat (apply elem_of_cons in Hc as [->|Hc]);
      [| |discriminate Ht|by apply elem_of_nil in Hc].
    + apply list_elem_of_singleton in Hin as ->. by left.
    + apply list_elem_of_singleton in Hin as ->. by right.
  - apply (Hf (mkChunk CFiles 0 "C1" 1 "" false 0 None [] (Some (msg "1.0")) []
                 [slack.mkFile "F1" "report.pdf"] [] [] None [] [])
              (slack.mkFile "F1" "report.pdf"));
      [repeat constructor|reflexivity|repeat constructor].
Defined.

(** ** The round trip through a log *)

Section RoundTrip.
Context `{!Stringer ChunkType}.
Variable enc_size : Chunk → positive.

Lemma has_parent_ID (c : Chunk) : has_parent c → ∃ k, ID c = Ok k.
Proof.
  intros Hp. unfold ID.
  repeat case_decide; try by eexists.
  - destruct Hp as [par ->]; [by left|]. by eexists.
  - destruct Hp as [par ->]; [by right|]. by eexists.
Qed.

Lemma located_ge (base off : Z) (c : Chunk) (chunks : list Chunk) :
  (off, c) ∈ located enc_size base chunks → (base ≤ off)%Z.
Proof.
  revert base. induction chunks as [|c0 chunks IH]; intros base Hin; simpl in Hin.
  - by apply elem_of_nil in Hin.
  - apply elem_of_cons in Hin as [[= -> ->]|Hin]; [lia|].
    apply IH in Hin. lia.
Qed.

Lemma located_snd (base : Z) (chunks : list Chunk) :
  (located enc_size base chunks).*2 = chunks.
Proof.
  revert base. induction chunks as [|c chunks IH]; intros base; simpl; [done|].
  by rewrite IH.
Qed.

Lemma with_key_snd (k : GroupID) (base : Z) (chunks : list Chunk) :
  (with_key k (located enc_size base chunks)).*2 = filter (λ c, ID c = Ok k) chunks.
Proof.
  revert base. induction chunks as [|c chunks IH]; intros base; [done|].
  unfold with_key in *. simpl. rewrite !filter_cons. simpl.
  case_decide; simpl; by rewrite IH.
Qed.

Lemma with_key_length (k : GroupID) (base : Z) (chunks : list Chunk) :
  length (with_key k (located enc_size base chunks)) ≤ length chunks.
Proof.
  unfold with_key. etrans; [apply length_filter|].
  by rewrite <- (located_snd base chunks) at 2; rewrite length_fmap.
Qed.

(** A reader placed at the offset of a record sees that record first. *)
Lemma frames_from_located (base off : Z) (c : Chunk) (chunks : list Chunk) :
  (off, c) ∈ located enc_size base chunks →
  ∃ rest, frames_from (frames_of enc_size chunks) (off - base)
          = mkFrame (enc_size c) (Some c) :: rest.
Proof.
  revert base. induction chunks as [|c0 chunks IH]; intros base Hin; simpl in Hin.
  - by apply elem_of_nil in Hin.
  - apply elem_of_cons in Hin as [[= -> ->]|Hin].
    + exists (frames_of enc_size chunks). simpl.
      by rewrite Z.sub_diag.
    + pose proof (located_ge _ _ _ _ Hin) as Hge.
      destruct (IH _ Hin) as [rest Hrest]. exists rest. simpl.
      destruct (Z.leb_spec (off - base) 0); [lia|].
      destruct (Z.ltb_spec (off - base) (Z.pos (enc_size c0))); [lia|].
      rewrite <- Hrest. f_equal. lia.
Qed.

(** The index that [indexRecords] builds: under every key, after what was
    there, the offsets of the records with that key, in stream order. *)
Lemma indexRecords_loop_spec (chunks : list Chunk) (base : Z) (idx0 : index) :
  Forall has_parent chunks →
  ∃ idx', indexRecords_loop (frames_of enc_size chunks) base idx0 = Ok idx' ∧
    ∀ k, default [] (idx' !! k)
         = default [] (idx0 !! k) ++ (with_key k (located enc_size base chunks)).*1 ∧
         (is_Some (idx' !! k) ↔
          is_Some (idx0 !! k) ∨ ∃ c, c ∈ chunks ∧ ID c = Ok k).
Proof.
  revert base idx0. induction chunks as [|c chunks IH]; intros base idx0 Hp.
  - exists idx0. split; [done|]. intros k. simpl. rewrite app_nil_r.
    split; [done|]. split; [by left|].
    intros [?|(c & Hc & _)]; [done|]. by apply elem_of_nil in Hc.
  - apply Forall_cons in Hp as [Hc Hp].
    destruct (has_parent_ID c Hc) as [kc Hkc].
    destruct (IH (base + Z.pos (enc_size c))%Z
                (<[kc := default [] (idx0 !! kc) ++ [base]]> idx0) Hp)
      as (idx' & Hloop & Hspec).
    exists idx'. split.
    { simpl. rewrite Hkc. simpl. exact Hloop. }
    intros k. destruct (Hspec k) as [Hd Hs]. unfold with_key in *. simpl.
    rewrite filter_cons. simpl.
    destruct (decide (kc = k)) as [->|Hne].
    + rewrite lookup_insert_eq in Hd, Hs. simpl in Hd.
      rewrite decide_True by done. simpl. rewrite Hd, <- app_assoc.
      split; [done|]. rewrite Hs. split.
      * intros _. right. exists c. split; [left|done].
      * intros _. left. by eexists.
    + rewrite lookup_insert_ne in Hd, Hs by done.
      rewrite decide_False by congruence.
      split; [done|]. rewrite Hs. split.
      * intros [?|(c' & Hc' & Hk')]; [by left|]. right. exists c'.
        split; [by right|done].
      * intros [?|(c' & Hc' & Hk')]; [by left|].
        apply elem_of_cons in Hc' as [->|Hc']; [congruence|].
        right. by exists c'.
Qed.
End RoundTrip.

Section Drain.
Context `{!Stringer ChunkType}.
Variable enc_size : Chunk → positive.
Variable chunks : list Chunk.
Variable k : GroupID.

(** The located records of the log that have the key [k]. *)
Local Abbreviation keyed := (with_key k (located enc_size 0 chunks)).
Local Abbreviation reads_log := (reads_log enc_size chunks k).

Lemma tryGetChunk_reads_log (p : Player) :
  reads_log p → reads_log (tryGetChunk p k).2.
Proof.
  intros (Hf & Hc & Hi). destruct (tryGetChunk_frames p k) as [Hf' Hc'].
  unfold reads_log. by rewrite Hf', Hc', tryGetChunk_idx.
Qed.

(** A read below the end of the offset list returns the record there. *)
Lemma tryGetChunk_next (p : Player) (off : Z) (c : Chunk) :
  reads_log p → keyed !! cursor p k = Some (off, c) →
  (tryGetChunk p k).1 = Ok c.
Proof.
  intros (Hf & Hc & Hi) Hn.
  assert (Hin : (off, c) ∈ located enc_size 0 chunks).
  { apply list_elem_of_lookup_2 in Hn. unfold with_key in Hn.
    by apply list_elem_of_filter in Hn as [_ ?]. }
  pose proof (located_ge _ _ _ _ _ Hin) as Hge.
  destruct (frames_from_located _ _ _ _ _ Hin) as [rest Hrest].
  rewrite Z.sub_0_r in Hrest.
  assert (Hlt : ¬ length keyed.*1 ≤ cursor p k).
  { rewrite length_fmap. apply lookup_lt_Some in Hn. lia. }
  assert (Hoff : keyed.*1 !! cursor p k = Some off).
  { by rewrite list_lookup_fmap, Hn. }
  unfold tryGetChunk, cursor in *. rewrite Hi.
  rewrite decide_False by done. rewrite Hoff. simpl.
  unfold Seek. rewrite Hc. simpl.
  destruct (Z.ltb_spec off 0); [lia|]. simpl.
  unfold Decode, json_NewDecoder. simpl. rewrite Hf, Hrest. done.
Qed.

(** The loop of [allForID], entered with the cursor at [n], appends the
    payloads of the records from [n] on and ends when the key is
    exhausted. *)
Lemma allForID_loop_drains {T} (fn : Chunk → list T) (fuel : nat) :
  ∀ (p : Player) (m : list T),
    reads_log p → length keyed - cursor p k < fuel →
    ∃ p', allForID_loop fuel p k fn m
          = Some (Ok (m ++ concat (fn <$> (drop (cursor p k) keyed).*2)), p').
Proof.
  induction fuel as [|fuel IH]; intros p m Hr Hfuel; [lia|].
  simpl. destruct (keyed !! cursor p k) as [[off c]|] eqn:Hn.
  - pose proof (tryGetChunk_next p off c Hr Hn) as Hok.
    pose proof (tryGetChunk_reads_log p Hr) as Hr'.
    destruct (tryGetChunk_Ok_cursor p k c Hok) as [Hcur _].
    destruct (tryGetChunk p k) as [r p1]. simpl in *. subst r.
    destruct (IH p1 (m ++ fn c) Hr') as [p' Hp'].
    { rewrite Hcur. apply lookup_lt_Some in Hn. lia. }
    exists p'. rewrite Hp', Hcur. do 3 f_equal.
    rewrite (drop_S _ _ _ Hn). simpl. by rewrite <- app_assoc.
  - apply lookup_ge_None in Hn.
    destruct Hr as (Hf & Hc & Hi).
    pose proof (tryGetChunk_exhausted p k _ Hi) as He.
    rewrite length_fmap in He. specialize (He Hn).
    destruct (tryGetChunk p k) as [r p1]. simpl in *. subst r.
    exists p1. rewrite decide_True by done.
    rewrite drop_ge by done. simpl. by rewrite app_nil_r.
Qed.
End Drain.

(** ** The round-trip claim *)

(** C1.  Over the log of any sequence of chunks (each with the parent that
    its key needs), [NewPlayer] builds a player, and draining any key of the
    log with [allForID] yields the payloads of the records with that key,
    in the order they were written, concatenated; a fuel above the number
    of records is enough for the loop to end. *)
Theorem record_index_drain_roundtrip `{!Stringer ChunkType}
    (enc_size : Chunk → positive) (chunks : list Chunk) :
  Forall has_parent chunks →
  ∃ p, NewPlayer (recorded enc_size chunks) = Ok p ∧
    ∀ (T : Type) (fn : Chunk → list T) (k : GroupID) (fuel : nat),
      (∃ c, c ∈ chunks ∧ ID c = Ok k) → length chunks < fuel →
      ∃ p', allForID fuel p k fn
            = Some (Ok (concat (fn <$> filter (λ c, ID c = Ok k) chunks)), p').
Proof.
  intros Hp.
  destruct (indexRecords_loop_spec enc_size chunks 0 ∅ Hp) as (idx' & Hidx & Hspec).
  exists (mkPlayer (recorded enc_size chunks) idx' ∅ 0). split.
  { unfold NewPlayer, indexRecords, json_NewDecoder. simpl.
    rewrite frames_from_0, Hidx. done. }
  intros T fn k fuel Hk Hfuel.
  destruct (Hspec k) as [Hd Hs]. rewrite lookup_empty in Hd, Hs. simpl in Hd.
  assert (Hi : idx' !! k = Some (with_key k (located enc_size 0 chunks)).*1).
  { destruct (idx' !! k) as [offs|] eqn:E.
    - simpl in Hd. by rewrite Hd.
    - exfalso. apply (is_Some_None (A:=list Z)). apply Hs. by right. }
  unfold allForID, Reset, Seek. simpl.
  destruct (allForID_loop_drains enc_size chunks k fn fuel
              (mkPlayer (recorded enc_size chunks) idx' ∅ 0) []) as [p' Hp'].
  { by split_and!. }
  { pose proof (with_key_length enc_size k 0 chunks). unfold cursor. simpl.
    rewrite lookup_empty. simpl. lia. }
  assert (Hc0 : cursor (mkPlayer (recorded enc_size chunks) idx' ∅ 0) k = 0).
  { unfold cursor. simpl. by rewrite lookup_empty. }
  rewrite Hc0, drop_0, with_key_snd in Hp'.
  exists p'. unfold recorded in *. by rewrite Hp'.
Qed.

Lemma record_index_drain_roundtrip_witness :
  Forall has_parent scenarioC_chunks ∧
  ∃ p, NewPlayer scenarioC_log = Ok p ∧
       (∃ p', allForID 4 p "C1" Messages = Some (Ok [msg "1.0"; msg "2.0"], p')) ∧
       (∃ p', allForID 4 p "fC1:1.0" Files
              = Some (Ok [slack.mkFile "F1" "report.pdf"], p')).
Proof.
  assert (Hp : Forall has_parent scenarioC_chunks).
  { repeat apply Forall_cons_2; [..|apply Forall_nil_2];
      intros [H|H]; try discriminate H; by eexists. }
  split; [exact Hp|].
  destruct (record_index_drain_roundtrip (λ _, 64%positive) scenarioC_chunks Hp)
    as (p & Hn & Hd).
  exists p. split; [exact Hn|]. split.
  - apply (Hd _ Messages "C1" 4).
    + eexists. split; [apply list_elem_of_here|reflexivity].
    + simpl. lia.
  - apply (Hd _ Files "fC1:1.0" 4).
    + eexists. split; [do 2 apply list_elem_of_further; apply list_elem_of_here|reflexivity].
    + simpl. lia.
Defined.

(** * Further properties of the code *)

(** ** Reads, cursors and [hasMore] *)

(** What a read returns depends on the index, on the cursor of its key and
    on the contents of the stream only: not on where the stream stands, on
    the last offset or on the other cursors. *)
Lemma tryGetChunk_result_ext (p q : Player) (id : GroupID) :
  idx p !! id = idx q !! id → cursor p id = cursor q id →
  frames (rs p) = frames (rs q) → closed (rs p) = closed (rs q) →
  (tryGetChunk p id).1 = (tryGetChunk q id).1.
Proof.
  destruct p as [[fp pp cp np] ip ptp lp], q as [[fq pq cq nq] iq ptq lq].
  unfold tryGetChunk, cursor. simpl. intros <- <- <- <-.
  destruct (ip !! id) as [offs|]; [|done].
  case_decide; [done|].
  unfold Seek. simpl. destruct (cp || _); [done|]. simpl.
  unfold Decode, json_NewDecoder. simpl.
  destruct cp; [done|].
  destruct (frames_from _ _) as [|f ?]; [done|].
  by destruct (content f).
Qed.

Lemma tryGetChunk_cursor_mono (p : Player) (id id' : GroupID) :
  cursor p id' ≤ cursor (tryGetChunk p id).2 id'.
Proof.
  destruct (tryGetChunk p id).1 as [c|e|] eqn:E.
  - destruct (tryGetChunk_Ok_cursor p id c E) as [H1 H2].
    destruct (decide (id' = id)) as [->|Hne]; [lia|]. by rewrite H2.
  - by rewrite (tryGetChunk_Err_cursor p id e E).
  - by apply tryGetChunk_no_panic in E.
Qed.

Lemma reads_invariant (p : Player) (ids : list GroupID) (id : GroupID) :
  idx (reads p ids) = idx p ∧ cursor p id ≤ cursor (reads p ids) id.
Proof.
  revert p. induction ids as [|a ids IH]; intros p; [done|].
  unfold reads in *. simpl. destruct (IH (tryGetChunk p a).2) as [Hi Hc].
  rewrite Hi, tryGetChunk_idx. split; [done|].
  etrans; [apply (tryGetChunk_cursor_mono p a id)|done].
Qed.

(** X1.  A read for one key does not change what the next read for another
    key returns: the cursors of different keys are independent. *)
Theorem tryGetChunk_keys_independent (p : Player) (a b : GroupID) :
  a ≠ b → (tryGetChunk (tryGetChunk p a).2 b).1 = (tryGetChunk p b).1.
Proof.
  intros Hne. destruct (tryGetChunk_frames p a) as [Hf Hc].
  apply tryGetChunk_result_ext; [by rewrite tryGetChunk_idx| |done..].
  destruct (tryGetChunk p a).1 as [c|e|] eqn:E.
  - destruct (tryGetChunk_Ok_cursor p a c E) as [_ H2]. by apply H2.
  - by apply (tryGetChunk_Err_cursor p a e E).
  - by apply tryGetChunk_no_panic in E.
Qed.

Lemma tryGetChunk_keys_independent_witness :
  "C1" ≠ "fC1:1.0" ∧
  (tryGetChunk (tryGetChunk scenarioC_player "C1").2 "fC1:1.0").1
  = (tryGetChunk scenarioC_player "fC1:1.0").1.
Proof.
  assert (H : "C1" ≠ "fC1:1.0") by discriminate.
  split; [exact H|]. exact (tryGetChunk_keys_independent scenarioC_player _ _ H).
Defined.

(** X2.  Exhaustion is final: once the cursor of a key has reached the end
    of its offsets, every later read for the key fails with [io.EOF],
    whatever reads for this or other keys come in between. *)
Theorem tryGetChunk_exhausted_forever (p : Player) (id : GroupID) (offs : list Z)
    (ids : list GroupID) :
  idx p !! id = Some offs → length offs ≤ cursor p id →
  (tryGetChunk (reads p ids) id).1 = Err EOF.
Proof.
  intros Hi Hc. destruct (reads_invariant p ids id) as [Hi' Hc'].
  apply (tryGetChunk_exhausted _ _ offs); [by rewrite Hi'|lia].
Qed.

Lemma tryGetChunk_exhausted_forever_witness :
  idx scenarioB_drained !! "tC1:1000.001" = Some [0%Z] ∧
  length [0%Z] ≤ cursor scenarioB_drained "tC1:1000.001" ∧
  (tryGetChunk (reads scenarioB_drained ["C1"; "tC1:1000.001"; "lusr"])
     "tC1:1000.001").1 = Err EOF.
Proof.
  assert (H1 : idx scenarioB_drained !! "tC1:1000.001" = Some [0%Z]) by reflexivity.
  assert (H2 : length [0%Z] ≤ cursor scenarioB_drained "tC1:1000.001").
  { vm_compute. lia. }
  split; [exact H1|]. split; [exact H2|].
  exact (tryGetChunk_exhausted_forever scenarioB_drained _ _ _ H1 H2).
Defined.

(** X3.  [hasMore] agrees with the next read.  When it answers false, the
    next read returns no record: it fails with [ErrNotFound] or [io.EOF].
    When it answers true for a key with at least one offset, the next read
    fails with neither of them. *)
Theorem hasMore_next_read (p : Player) (id : GroupID) :
  (hasMore p id = false →
   (tryGetChunk p id).1 = Err ErrNotFound ∨ (tryGetChunk p id).1 = Err EOF) ∧
  (∀ offs, hasMore p id = true → idx p !! id = Some offs → offs ≠ [] →
     (tryGetChunk p id).1 ≠ Err ErrNotFound ∧ (tryGetChunk p id).1 ≠ Err EOF).
Proof.
  split.
  - intros Hm. unfold hasMore in Hm.
    destruct (idx p !! id) as [offs|] eqn:Hi.
    + right. apply (tryGetChunk_exhausted p id offs Hi). unfold cursor.
      destruct (pointer p !! id) as [ptr|]; [|done].
      apply bool_decide_eq_false in Hm. simpl. lia.
    + left. by rewrite tryGetChunk_not_found.
  - intros offs Hm Hi Hne. split.
    + intros He%tryGetChunk_NotFound_inv. congruence.
    + intros (offs' & Hi' & Hc)%tryGetChunk_EOF_inv.
      rewrite Hi in Hi'. injection Hi' as <-.
      unfold hasMore in Hm. rewrite Hi in Hm. unfold cursor in Hc.
      destruct (pointer p !! id) as [ptr|]; simpl in Hc.
      * apply bool_decide_eq_true in Hm. lia.
      * destruct offs; [done|]. simpl in Hc. lia.
Qed.

Lemma hasMore_next_read_witness :
  (hasMore scenarioB_drained "tC1:1000.001" = false ∧
   ((tryGetChunk scenarioB_drained "tC1:1000.001").1 = Err ErrNotFound ∨
    (tryGetChunk scenarioB_drained "tC1:1000.001").1 = Err EOF)) ∧
  (hasMore scenarioB_player "tC1:1000.001" = true ∧
   (tryGetChunk scenarioB_player "tC1:1000.001").1 ≠ Err EOF).
Proof.
  split.
  - split; [reflexivity|].
    exact (proj1 (hasMore_next_read scenarioB_drained "tC1:1000.001") eq_refl).
  - split; [reflexivity|].
    refine (proj2 (proj2 (hasMore_next_read scenarioB_player "tC1:1000.001")
                     [0%Z] eq_refl eq_refl _)).
    discriminate.
Defined.

(** X4.  After a successful read [Offset] is the offset of the record that
    was read, and a decode failure carries the offset it happened at, which
    is also what [Offset] then returns. *)
Theorem Offset_after_read (p : Player) (id : GroupID) :
  (∀ c, (tryGetChunk p id).1 = Ok c →
     next_offset p id = Some (Offset (tryGetChunk p id).2)) ∧
  (∀ off e, (tryGetChunk p id).1 = Err (ErrDecodeAt off e) →
     next_offset p id = Some off ∧ Offset (tryGetChunk p id).2 = off).
Proof.
  unfold next_offset, Offset, tryGetChunk, cursor.
  destruct (idx p !! id) as [offs|]; [|by split].
  simpl. case_decide as Hlen; [by split|].
  destruct (offs !! default 0 (pointer p !! id)) as [off|] eqn:Hoff.
  2: { apply lookup_ge_None in Hoff. lia. }
  simpl. unfold Seek. destruct (closed (rs p) || _); [by split|]. simpl.
  destruct (Decode _) as [[c|e|] dec]; simpl; split; try done.
  intros off' e' [= <- <-]. done.
Qed.

Lemma Offset_after_read_witness :
  (tryGetChunk misaligned_player "tC1:1000.001").1 = Err (ErrDecodeAt 7 ErrSyntax) ∧
  next_offset misaligned_player "tC1:1000.001" = Some 7%Z ∧
  Offset (tryGetChunk misaligned_player "tC1:1000.001").2 = 7%Z.
Proof.
  split; [reflexivity|].
  exact (proj2 (Offset_after_read misaligned_player "tC1:1000.001") 7%Z ErrSyntax
           eq_refl).
Defined.

(** ** [Reset] and [ForEach] *)

(** X5.  [Reset] empties the cursor table and keeps the index, also when the
    seek fails (which it does exactly on a closed stream); afterwards
    [hasMore] answers true for every key of the index, exhausted before or
    not, and the next read for a key goes to its first offset. *)
Theorem Reset_restarts (p : Player) :
  (Reset p).1 = (if closed (rs p) then Err ErrIO else Ok ()) ∧
  pointer (Reset p).2 = ∅ ∧
  idx (Reset p).2 = idx p ∧
  (closed (rs p) = false → pos (rs (Reset p).2) = 0%Z) ∧
  ∀ id, hasMore (Reset p).2 id = bool_decide (is_Some (idx p !! id)) ∧
        next_offset (Reset p).2 id = (offs ← idx p !! id; head offs).
Proof.
  unfold Reset, Seek. simpl.
  destruct (closed (rs p)); simpl; (split_and!; [done..|]);
    intros id; unfold hasMore, next_offset, cursor; simpl;
    rewrite lookup_empty; simpl;
    (destruct (idx p !! id) as [offs|]; simpl; [by destruct offs|done]).
Qed.

Lemma ForEach_loop_visit {S} (fn : option Chunk → S → result S)
    (enc_size : Chunk → positive) (chunks : list Chunk) (s : S) :
  ForEach_loop fn (frames_of enc_size chunks) s = visit fn chunks s.
Proof.
  revert s. induction chunks as [|c chunks IH]; intros s; [done|].
  simpl. destruct (fn (Some c) s); simpl; [apply IH|done..].
Qed.

(** [ForEach] over the records of a log, spelled out. *)
Lemma ForEach_recorded {S} (enc_size : Chunk → positive) (chunks : list Chunk)
    (p : Player) (fn : option Chunk → S → result S) (s : S) :
  frames (rs p) = frames_of enc_size chunks → closed (rs p) = false →
  ForEach p fn s
  = (visit fn chunks s,
     mkPlayer (mkReadSeeker (frames (rs p)) 0 false (baseName (rs p))) (idx p) ∅
       (lastOffset p)).
Proof.
  intros Hf Hc. unfold ForEach, Reset, Seek. rewrite Hc. simpl.
  rewrite frames_from_0, Hf, ForEach_loop_visit. done.
Qed.

(** X6.  [ForEach] calls the callback on every record of the log, in file
    order, up to the first failure of the callback, whatever the index holds
    and wherever the cursors and the stream stand; afterwards the cursor
    table is empty and the stream is back at offset 0. *)
Theorem ForEach_visits_log {S} (enc_size : Chunk → positive) (chunks : list Chunk)
    (p : Player) (fn : option Chunk → S → result S) (s : S) :
  frames (rs p) = frames_of enc_size chunks → closed (rs p) = false →
  (ForEach p fn s).1 = visit fn chunks s ∧
  pointer (ForEach p fn s).2 = ∅ ∧
  pos (rs (ForEach p fn s).2) = 0%Z ∧
  idx (ForEach p fn s).2 = idx p ∧
  frames (rs (ForEach p fn s).2) = frames (rs p).
Proof.
  intros Hf Hc. by rewrite (ForEach_recorded enc_size chunks p fn s Hf Hc).
Qed.

Lemma ForEach_visits_log_witness :
  (ForEach (tryGetChunk scenarioC_player "C1").2 collect []).1 = Ok scenarioC_chunks ∧
  pointer (ForEach (tryGetChunk scenarioC_player "C1").2 collect []).2 = ∅.
Proof.
  destruct (ForEach_visits_log (λ _, 64%positive) scenarioC_chunks
              (tryGetChunk scenarioC_player "C1").2 collect [] eq_refl eq_refl)
    as (H1 & H2 & _).
  split; [exact H1|exact H2].
Defined.

Lemma visit_app {S} (fn : option Chunk → S → result S) (pre post : list Chunk) (s : S) :
  visit fn (pre ++ post) s = (s' ← visit fn pre s; visit fn post s').
Proof.
  revert s. induction pre as [|c pre IH]; intros s; [done|].
  simpl. destruct (fn (Some c) s); simpl; [apply IH|done..].
Qed.

(** X7.  A failure of the callback ends the scan: [ForEach] returns the
    error of the first record the callback fails on, the records after it
    are not visited, and the cursors are reset and the stream is rewound all
    the same. *)
Theorem ForEach_stops_at_error {S} (enc_size : Chunk → positive)
    (pre post : list Chunk) (c : Chunk) (p : Player)
    (fn : option Chunk → S → result S) (s s1 : S) (e : error) :
  frames (rs p) = frames_of enc_size (pre ++ c :: post) → closed (rs p) = false →
  visit fn pre s = Ok s1 → fn (Some c) s1 = Err e →
  (ForEach p fn s).1 = Err e ∧
  (∀ post', visit fn (pre ++ c :: post') s = Err e) ∧
  pointer (ForEach p fn s).2 = ∅ ∧ pos (rs (ForEach p fn s).2) = 0%Z.
Proof.
  intros Hf Hc Hpre He.
  assert (Hv : ∀ post', visit fn (pre ++ c :: post') s = Err e).
  { intros post'. rewrite visit_app, Hpre. simpl. by rewrite He. }
  rewrite (ForEach_recorded enc_size _ p fn s Hf Hc). simpl. by split_and!.
Qed.

Lemma ForEach_stops_at_error_witness :
  (ForEach scenarioC_player refuse_files 0).1 = Err ErrUnsupChunkType ∧
  pointer (ForEach scenarioC_player refuse_files 0).2 = ∅.
Proof.
  destruct (ForEach_stops_at_error (λ _, 64%positive)
              [chunk_of CMessages "C1" None [msg "1.0"];
               chunk_of CMessages "C1" None [msg "2.0"]] []
              (mkChunk CFiles 0 "C1" 1 "" false 0 None [] (Some (msg "1.0")) []
                 [slack.mkFile "F1" "report.pdf"] [] [] None [] [])
              scenarioC_player refuse_files 0 2 ErrUnsupChunkType
              eq_refl eq_refl eq_refl eq_refl) as (H1 & _ & H2 & _).
  split; [exact H1|exact H2].
Defined.

(** X8.  A full scan can be repeated: a second [ForEach] with the same
    callback returns what the first one returned, for every player. *)
Theorem ForEach_repeatable {S} (p : Player) (fn : option Chunk → S → result S) (s : S) :
  (ForEach (ForEach p fn s).2 fn s).1 = (ForEach p fn s).1.
Proof.
  destruct p as [[f ps c n] i pt l]. unfold ForEach, Reset, Seek. simpl.
  destruct c; simpl; [done|]. by rewrite !frames_from_0.
Qed.

(** ** The index that [NewPlayer] builds *)

Section Index.
Context `{!Stringer ChunkType}.
Variable enc_size : Chunk → positive.

Lemma with_key_offsets_sorted (k : GroupID) (base : Z) (chunks : list Chunk) :
  StronglySorted Z.lt (with_key k (located enc_size base chunks)).*1.
Proof.
  revert base. induction chunks as [|c chunks IH]; intros base.
  - constructor.
  - unfold with_key in *. simpl. rewrite filter_cons. simpl.
    case_decide; [|apply IH]. simpl. constructor; [apply IH|].
    apply Forall_forall. intros off Hin.
    apply list_elem_of_fmap in Hin as ([off' c'] & -> & Hin).
    apply list_elem_of_filter in Hin as [_ Hin].
    apply located_ge in Hin. simpl. lia.
Qed.

Lemma with_key_elem (k : GroupID) (base off : Z) (chunks : list Chunk) :
  off ∈ (with_key k (located enc_size base chunks)).*1 ↔
  ∃ c, (off, c) ∈ located enc_size base chunks ∧ ID c = Ok k.
Proof.
  unfold with_key. rewrite list_elem_of_fmap. split.
  - intros ([off' c] & -> & Hin). apply list_elem_of_filter in Hin as [Hk Hin].
    by exists c.
  - intros (c & Hin & Hk). exists (off, c). split; [done|].
    by apply list_elem_of_filter.
Qed.

Lemma with_key_nonempty (k : GroupID) (base : Z) (chunks : list Chunk) (c : Chunk) :
  c ∈ chunks → ID c = Ok k → (with_key k (located enc_size base chunks)).*1 ≠ [].
Proof.
  intros Hc Hk Hnil.
  assert (Hin : c ∈ filter (λ c, ID c = Ok k) chunks) by by apply list_elem_of_filter.
  rewrite <- (with_key_snd enc_size k base) in Hin.
  apply (f_equal length) in Hnil. rewrite length_fmap in Hnil.
  destruct (with_key k (located enc_size base chunks)); [|done].
  by apply elem_of_nil in Hin.
Qed.

(** [NewPlayer] over a recorded log, spelled out. *)
Lemma NewPlayer_recorded (chunks : list Chunk) :
  Forall has_parent chunks →
  ∃ idx', NewPlayer (recorded enc_size chunks)
          = Ok (mkPlayer (recorded enc_size chunks) idx' ∅ 0) ∧
    ∀ k, (is_Some (idx' !! k) ↔ ∃ c, c ∈ chunks ∧ ID c = Ok k) ∧
         ∀ offs, idx' !! k = Some offs →
                 offs = (with_key k (located enc_size 0 chunks)).*1.
Proof.
  intros Hp.
  destruct (indexRecords_loop_spec enc_size chunks 0 ∅ Hp) as (idx' & Hidx & Hspec).
  exists idx'. split.
  { unfold NewPlayer, indexRecords, json_NewDecoder. simpl.
    rewrite frames_from_0, Hidx. done. }
  intros k. destruct (Hspec k) as [Hd Hs]. rewrite lookup_empty in Hd, Hs.
  split.
  - rewrite Hs. split; [|by right]. intros [[? [=]]|?]; done.
  - intros offs Ho. rewrite Ho in Hd. done.
Qed.

(** X9.  The index of a log has exactly the keys of its records; under each
    key it lists the offsets at which the records with that key start: at
    least one, in ascending order, none twice. *)
Theorem NewPlayer_index (chunks : list Chunk) :
  Forall has_parent chunks →
  ∃ p, NewPlayer (recorded enc_size chunks) = Ok p ∧
    pointer p = ∅ ∧ pos (rs p) = 0%Z ∧
    ∀ k, (is_Some (idx p !! k) ↔ ∃ c, c ∈ chunks ∧ ID c = Ok k) ∧
         ∀ offs, idx p !! k = Some offs →
           offs ≠ [] ∧ StronglySorted Z.lt offs ∧
           ∀ off, off ∈ offs ↔
                  ∃ c, (off, c) ∈ located enc_size 0 chunks ∧ ID c = Ok k.
Proof.
  intros Hp. destruct (NewPlayer_recorded chunks Hp) as (idx' & Hn & Hspec).
  eexists. split; [exact Hn|]. simpl. split_and!; [done..|].
  intros k. destruct (Hspec k) as [Hs Ho]. split; [done|].
  intros offs Hi. rewrite (Ho offs Hi). split_and!.
  - destruct (proj1 Hs) as (c & Hc & Hk); [by eexists|].
    by eapply with_key_nonempty.
  - apply with_key_offsets_sorted.
  - intros off. apply with_key_elem.
Qed.

Lemma indexRecords_loop_corrupt (pre : list Chunk) (bad : Frame)
    (tail : list Frame) (base : Z) (idx0 : index) :
  Forall has_parent pre → content bad = None →
  indexRecords_loop (frames_of enc_size pre ++ bad :: tail) base idx0 = Err ErrSyntax.
Proof.
  intros Hp Hb. revert base idx0.
  induction pre as [|c pre IH]; intros base idx0; simpl.
  - by rewrite Hb.
  - apply Forall_cons in Hp as [Hc Hp].
    destruct (has_parent_ID c Hc) as [k ->]. simpl. by apply IH.
Qed.

(** X10.  A record that does not decode makes the whole log unusable:
    [NewPlayer] fails with the decoding error and returns no player, however
    many good records come before the bad one. *)
Theorem NewPlayer_rejects_corrupt_log (pre : list Chunk) (bad : Frame)
    (tail : list Frame) (name : option string) :
  Forall has_parent pre → content bad = None →
  NewPlayer (mkReadSeeker (frames_of enc_size pre ++ bad :: tail) 0 false name)
  = Err ErrSyntax.
Proof.
  intros Hp Hb. unfold NewPlayer, indexRecords, json_NewDecoder. simpl.
  rewrite frames_from_0. by rewrite (indexRecords_loop_corrupt pre bad tail).
Qed.

Lemma indexRecords_loop_panics (pre : list Chunk) (c : Chunk)
    (tail : list Frame) (base : Z) (idx0 : index) :
  Forall has_parent pre → ¬ has_parent c →
  indexRecords_loop
    (frames_of enc_size pre ++ mkFrame (enc_size c) (Some c) :: tail) base idx0
  = Panicked.
Proof.
  intros Hp Hc. revert base idx0.
  induction pre as [|c' pre IH]; intros base idx0; simpl.
  - assert (ID c = Panicked) as ->; [|done].
    unfold has_parent in Hc. unfold ID.
    destruct (Parent c) as [par|] eqn:Hpar.
    { exfalso. apply Hc. intros _. by eexists. }
    repeat case_decide; try done; exfalso; apply Hc;
      intros [Ht|Ht]; rewrite Ht in *; done.
  - apply Forall_cons in Hp as [Hc' Hp].
    destruct (has_parent_ID c' Hc') as [k ->]. simpl. by apply IH.
Qed.

(** X11.  A ThreadMessages or Files record without its parent message is
    not rejected with an error: deriving its key dereferences the nil
    [Parent], and [NewPlayer] panics. *)
Theorem NewPlayer_panics_without_parent (pre post : list Chunk) (c : Chunk) :
  Forall has_parent pre →
  Type_ c = CThreadMessages ∨ Type_ c = CFiles → Parent c = None →
  NewPlayer (recorded enc_size (pre ++ c :: post)) = Panicked.
Proof.
  intros Hp Ht Hpar. unfold NewPlayer, indexRecords, json_NewDecoder, recorded. simpl.
  rewrite frames_from_0. unfold frames_of. rewrite map_app. simpl.
  fold (frames_of enc_size pre). fold (frames_of enc_size post).
  rewrite indexRecords_loop_panics; [done..|].
  intros H. destruct (H Ht) as [? ?]. congruence.
Qed.
End Index.

Lemma scenarioC_has_parent : Forall has_parent scenarioC_chunks.
Proof.
  repeat apply Forall_cons_2; [..|apply Forall_nil_2];
    intros [H|H]; try discriminate H; by eexists.
Qed.

Lemma NewPlayer_index_witness :
  Forall has_parent scenarioC_chunks ∧
  ∃ p, NewPlayer scenarioC_log = Ok p ∧
       ∀ offs, idx p !! "C1" = Some offs → offs ≠ [] ∧ StronglySorted Z.lt offs.
Proof.
  split; [exact scenarioC_has_parent|].
  destruct (NewPlayer_index (λ _, 64%positive) scenarioC_chunks scenarioC_has_parent)
    as (p & Hn & _ & _ & Hk).
  exists p. split; [exact Hn|]. intros offs Ho.
  destruct (proj2 (Hk "C1") offs Ho) as (H1 & H2 & _). by split.
Defined.

Lemma NewPlayer_rejects_corrupt_log_witness :
  Forall has_parent scenarioC_chunks ∧
  NewPlayer (mkReadSeeker
               (frames_of (λ _, 64%positive) scenarioC_chunks
                ++ mkFrame 10 None :: frames_of (λ _, 64%positive) [scenarioB_chunk])
               0 false None)
  = Err ErrSyntax.
Proof.
  split; [exact scenarioC_has_parent|].
  apply (NewPlayer_rejects_corrupt_log (λ _, 64%positive) scenarioC_chunks
           (mkFrame 10 None)); [exact scenarioC_has_parent|reflexivity].
Defined.

Lemma NewPlayer_panics_without_parent_witness :
  Forall has_parent scenarioC_chunks ∧
  NewPlayer (recorded (λ _, 64%positive)
               (scenarioC_chunks ++ chunk_of CThreadMessages "C1" None [msg "3.0"] :: []))
  = Panicked.
Proof.
  split; [exact scenarioC_has_parent|].
  apply (NewPlayer_panics_without_parent (λ _, 64%positive) scenarioC_chunks []
           (chunk_of CThreadMessages "C1" None [msg "3.0"]));
    [exact scenarioC_has_parent|by left|reflexivity].
Defined.

(** ** Draining a key *)

(** X12.  [allForID] starts over from the first record of the key wherever
    the cursors stand, also after the key has been exhausted: over a log it
    returns the payloads of all the records with the key, in order. *)
Theorem allForID_from_any_state `{!Stringer ChunkType} {T}
    (enc_size : Chunk → positive) (chunks : list Chunk) (k : GroupID)
    (p : Player) (fn : Chunk → list T) (fuel : nat) :
  reads_log enc_size chunks k p → length chunks < fuel →
  ∃ p', allForID fuel p k fn
        = Some (Ok (concat (fn <$> filter (λ c, ID c = Ok k) chunks)), p').
Proof.
  intros (Hf & Hc & Hi) Hfuel. unfold allForID, Reset, Seek. rewrite Hc. simpl.
  set (p1 := mkPlayer _ _ _ _).
  assert (Hc0 : cursor p1 k = 0) by (unfold cursor; simpl; by rewrite lookup_empty).
  destruct (allForID_loop_drains enc_size chunks k fn fuel p1 []) as [p' Hp'].
  { by split_and!. }
  { pose proof (with_key_length enc_size k 0 chunks). lia. }
  rewrite Hc0, drop_0, with_key_snd in Hp'. by exists p'.
Qed.

Lemma allForID_from_any_state_witness :
  reads_log (λ _, 64%positive) [scenarioB_chunk] "tC1:1000.001" scenarioB_drained ∧
  (tryGetChunk scenarioB_drained "tC1:1000.001").1 = Err EOF ∧
  ∃ p', allForID 2 scenarioB_drained "tC1:1000.001" Messages
        = Some (Ok (Messages scenarioB_chunk), p').
Proof.
  assert (Hr : reads_log (λ _, 64%positive) [scenarioB_chunk] "tC1:1000.001"
                 scenarioB_drained) by (split_and!; reflexivity).
  split; [exact Hr|]. split; [reflexivity|].
  destruct (allForID_from_any_state (λ _, 64%positive) [scenarioB_chunk]
              "tC1:1000.001" scenarioB_drained Messages 2 Hr) as [p' Hp'].
  { simpl. lia. }
  exists p'. exact Hp'.
Defined.

(** X13.  Draining a key that is not in the index is an error, not an empty
    result: [allForID] returns [ErrNotFound]; and on a closed stream it
    returns the error of the seek without reading anything. *)
Theorem allForID_missing_key {T} (p : Player) (id : GroupID) (fn : Chunk → list T)
    (fuel : nat) :
  (closed (rs p) = false → idx p !! id = None →
   allForID (S fuel) p id fn = Some (Err ErrNotFound, (Reset p).2)) ∧
  (closed (rs p) = true →
   allForID fuel p id fn = Some (Err ErrIO, (Reset p).2)).
Proof.
  unfold allForID, Reset, Seek. split.
  - intros Hc Hi. rewrite Hc. simpl. unfold tryGetChunk. simpl. by rewrite Hi.
  - intros Hc. by rewrite Hc.
Qed.

Lemma allForID_missing_key_witness :
  allForID 1 scenarioB_player "C9" Messages
  = Some (Err ErrNotFound, (Reset scenarioB_player).2) ∧
  allForID 5 closed_player "tC1:1000.001" Messages
  = Some (Err ErrIO, (Reset closed_player).2).
Proof.
  split.
  - exact (proj1 (allForID_missing_key scenarioB_player "C9" Messages 0)
             eq_refl eq_refl).
  - exact (proj2 (allForID_missing_key closed_player "tC1:1000.001" Messages 5)
             eq_refl).
Defined.

(** ** The listing of the channels *)

Lemma Contains_colon_prefixed (x : ascii) (a b : string) :
  strings_Contains (String x (a +:+ ":" +:+ b)) ":" = true.
Proof.
  destruct (strings_Contains (String x (a +:+ ":" +:+ b)) ":") eqn:E; [done|].
  apply Contains_colon_cons in E as [_ E]. by rewrite Contains_colon_app in E.
Qed.

(** X14.  [AllChannelIDs] returns the keys of the index that contain no
    [":"] and do not start with ["ci"], each once, in ascending order. *)
Theorem AllChannelIDs_spec (p : Player) :
  (∀ id, id ∈ AllChannelIDs p ↔
         is_Some (idx p !! id) ∧ strings_Contains id ":" = false ∧
         strings_HasPrefix id "ci" = false) ∧
  StronglySorted String.le (AllChannelIDs p) ∧
  NoDup (AllChannelIDs p).
Proof.
  split_and!.
  - intros id. rewrite AllChannelIDs_elem. unfold is_channel_key.
    rewrite andb_true_iff, !negb_true_iff. done.
  - apply (StronglySorted_merge_sort String.le).
  - unfold AllChannelIDs. rewrite merge_sort_Permutation.
    apply NoDup_filter, NoDup_fst_map_to_list.
Qed.

(** X15.  The keys of thread and file records are never listed as channels,
    by no player; and over a log every channel that has a Messages record
    and whose identifier has no [":"] and does not start with ["ci"] is
    listed. *)
Theorem AllChannelIDs_of_log `{!Stringer ChunkType}
    (enc_size : Chunk → positive) (chunks : list Chunk) :
  (∀ (p : Player) c k, Type_ c = CThreadMessages ∨ Type_ c = CFiles →
     ID c = Ok k → k ∉ AllChannelIDs p) ∧
  (Forall has_parent chunks →
   ∃ p, NewPlayer (recorded enc_size chunks) = Ok p ∧
        ∀ c, c ∈ chunks → Type_ c = CMessages →
             is_channel_key (ChannelID c) = true → ChannelID c ∈ AllChannelIDs p).
Proof.
  split.
  - intros p c k Ht Hk Hin. apply AllChannelIDs_elem in Hin as [_ Hkey].
    unfold is_channel_key in Hkey. apply andb_true_iff in Hkey as [Hc _].
    apply negb_true_iff in Hc.
    destruct Ht as [Ht|Ht].
    + rewrite ID_ThreadMessages in Hk by done.
      destruct (Parent c) as [m|]; [|done]. injection Hk as <-.
      pose proof (Contains_colon_prefixed "t" (ChannelID c) (slack.ThreadTimestamp m)) as H.
      pose proof (eq_trans (eq_sym H) Hc). done.
    + rewrite ID_Files in Hk by done.
      destruct (Parent c) as [m|]; [|done]. injection Hk as <-.
      pose proof (Contains_colon_prefixed "f" (ChannelID c) (slack.Timestamp m)) as H.
      pose proof (eq_trans (eq_sym H) Hc). done.
  - intros Hp. destruct (NewPlayer_recorded enc_size chunks Hp) as (idx' & Hn & Hspec).
    eexists. split; [exact Hn|]. intros c Hc Ht Hkey.
    apply AllChannelIDs_elem. split; [|done]. simpl.
    apply (Hspec (ChannelID c)). exists c. split; [done|]. by apply ID_Messages.
Qed.

Lemma AllChannelIDs_of_log_witness :
  Forall has_parent scenarioC_chunks ∧
  ∃ p, NewPlayer scenarioC_log = Ok p ∧
       "C1" ∈ AllChannelIDs p ∧ "fC1:1.0" ∉ AllChannelIDs p.
Proof.
  split; [exact scenarioC_has_parent|].
  destruct (AllChannelIDs_of_log (λ _, 64%positive) scenarioC_chunks) as [Hno Hyes].
  destruct (Hyes scenarioC_has_parent) as (p & Hn & Hin).
  exists p. split; [exact Hn|]. split.
  - apply (Hin (chunk_of CMessages "C1" None [msg "1.0"]));
      [apply list_elem_of_here|reflexivity|reflexivity].
  - apply (Hno p (mkChunk CFiles 0 "C1" 1 "" false 0 None [] (Some (msg "1.0")) []
                    [slack.mkFile "F1" "report.pdf"] [] [] None [] []));
      [by right|reflexivity].
Defined.

(** ** Pages of the replay server *)

Lemma tryGetChunk_Ok_state (p : Player) (id : GroupID) (c : Chunk) :
  (tryGetChunk p id).1 = Ok c →
  pointer (tryGetChunk p id).2 !! id = Some (S (cursor p id)) ∧
  next_offset p id = Some (lastOffset (tryGetChunk p id).2).
Proof.
  unfold next_offset, tryGetChunk, cursor.
  destruct (idx p !! id) as [offs|]; [|done].
  simpl. case_decide as Hlen; [done|].
  destruct (offs !! default 0 (pointer p !! id)) as [off|] eqn:Hoff.
  2: { apply lookup_ge_None in Hoff. lia. }
  simpl. unfold Seek. destruct (closed (rs p) || _); [done|]. simpl.
  destruct (Decode _) as [[c'|e|] dec]; simpl; [|done..].
  intros _. rewrite lookup_insert_eq. split; [|done].
  do 2 f_equal. apply cursor_init.
Qed.

(** X16.  The history endpoint pages through the Messages records of a
    channel: a request returns the messages of the record at the cursor,
    with the offset of that record as [next_cursor], and [has_more] is true
    exactly when a further record of the channel is left, so that the last
    page of a channel is the one with [has_more] false. *)
Theorem history_pages `{!Stringer ChunkType} (enc_size : Chunk → positive)
    (chunks : list Chunk) (channel : string) (p : Player) (off : Z) (c : Chunk) :
  channel ≠ "" → reads_log enc_size chunks channel p →
  with_key channel (located enc_size 0 chunks) !! cursor p channel = Some (off, c) →
  (chunktest.handleConversationsHistory p channel).1
  = chunktest.JSON
      (chunktest.HistoryResponse chunktest.ok_response
         (bool_decide (S (cursor p channel)
                       < length (with_key channel (located enc_size 0 chunks))))
         (chunktest.FormatInt off) (Messages c)) ∧
  cursor (chunktest.handleConversationsHistory p channel).2 channel
  = S (cursor p channel) ∧
  reads_log enc_size chunks channel (chunktest.handleConversationsHistory p channel).2.
Proof.
  intros Hch Hr Hn.
  pose proof (tryGetChunk_next enc_size chunks channel p off c Hr Hn) as Hok.
  pose proof (tryGetChunk_reads_log enc_size chunks channel p Hr) as Hr'.
  destruct (tryGetChunk_Ok_state p channel c Hok) as [Hptr Hoff].
  destruct (tryGetChunk_Ok_cursor p channel c Hok) as [Hcur _].
  assert (Hno : next_offset p channel = Some off).
  { destruct Hr as (_ & _ & Hi). unfold next_offset. rewrite Hi. simpl.
    by rewrite list_lookup_fmap, Hn. }
  rewrite Hno in Hoff. injection Hoff as Hoff.
  unfold chunktest.handleConversationsHistory. rewrite decide_False by done.
  unfold Messages_, HasMoreMessages, Offset, hasMore.
  destruct (tryGetChunk p channel) as [r p']. simpl in *. subst r. simpl.
  destruct Hr' as (Hf' & Hc' & Hi'). rewrite Hi', Hptr, length_fmap, <- Hoff.
  split_and!; [done..|]. by split_and!.
Qed.

Lemma history_pages_witness :
  "C1" ≠ "" ∧
  reads_log (λ _, 64%positive) scenarioC_chunks "C1" scenarioC_player ∧
  (chunktest.handleConversationsHistory scenarioC_player "C1").1
  = chunktest.JSON
      (chunktest.HistoryResponse chunktest.ok_response true "0" [msg "1.0"]) ∧
  (chunktest.handleConversationsHistory
     (chunktest.handleConversationsHistory scenarioC_player "C1").2 "C1").1
  = chunktest.JSON
      (chunktest.HistoryResponse chunktest.ok_response false "64" [msg "2.0"]).
Proof.
  assert (Hne : "C1" ≠ "") by discriminate.
  assert (Hr : reads_log (λ _, 64%positive) scenarioC_chunks "C1" scenarioC_player)
    by (split_and!; reflexivity).
  destruct (history_pages (λ _, 64%positive) scenarioC_chunks "C1" scenarioC_player
              0 (chunk_of CMessages "C1" None [msg "1.0"]) Hne Hr eq_refl)
    as (H1 & _ & Hr1).
  split; [exact Hne|]. split; [exact Hr|]. split; [exact H1|].
  exact (proj1 (history_pages (λ _, 64%positive) scenarioC_chunks "C1" _
                  64 (chunk_of CMessages "C1" None [msg "2.0"]) Hne Hr1 eq_refl)).
Defined.

(** ** The categories of the keys *)

(** X17.  The first byte of a key tells its category: the keys of
    ChannelInfo and WorkspaceInfo records are info keys, those of the Users,
    Channels, ChannelUsers, StarredItems and Bookmarks records are list
    keys, and the keys of thread and file records are neither.  On the
    empty key, which a Messages record without a channel gets, both tests
    panic. *)
Theorem key_categories `{!Stringer ChunkType} (c : Chunk) (k : GroupID) :
  ID c = Ok k →
  (Type_ c = CChannelInfo ∨ Type_ c = CWorkspaceInfo →
   isInfo k = Ok true ∧ isList k = Ok false) ∧
  (Type_ c = CUsers ∨ Type_ c = CChannels ∨ Type_ c = CChannelUsers ∨
   Type_ c = CStarredItems ∨ Type_ c = CBookmarks →
   isList k = Ok true ∧ isInfo k = Ok false) ∧
  (Type_ c = CThreadMessages ∨ Type_ c = CFiles →
   isInfo k = Ok false ∧ isList k = Ok false) ∧
  (Type_ c = CMessages → ChannelID c = "" →
   isInfo k = Panicked ∧ isList k = Panicked).
Proof.
  intros Hk. split_and!.
  - intros [Ht|Ht];
      [rewrite ID_ChannelInfo in Hk by done|rewrite ID_WorkspaceInfo in Hk by done];
      by simplify_eq.
  - intros Ht. destruct_or!;
      [rewrite ID_Users in Hk by done|rewrite ID_Channels in Hk by done
      |rewrite ID_ChannelUsers in Hk by done|rewrite ID_StarredItems in Hk by done
      |rewrite ID_Bookmarks in Hk by done]; by simplify_eq.
  - intros [Ht|Ht];
      [rewrite ID_ThreadMessages in Hk by done|rewrite ID_Files in Hk by done];
      (destruct (Parent c); [|done]); injection Hk as <-; done.
  - intros Ht He. rewrite ID_Messages in Hk by done. rewrite He in Hk.
    by simplify_eq.
Qed.

Lemma key_categories_witness :
  ID (chunk_of CChannelInfo "C1" None []) = Ok "icC1" ∧
  isInfo "icC1" = Ok true ∧ isList "icC1" = Ok false.
Proof.
  split; [reflexivity|].
  refine (proj1 (key_categories (chunk_of CChannelInfo "C1" None []) "icC1" eq_refl) _).
  by left.
Defined.

(** ** The timestamps of a chunk *)

Section TimestampsProperties.
Context {E : Type} (TS2int : string → E + Z).

Lemma messageTimestamps_loop_inr (ms : list slack.Message) (l : list Z) :
  messageTimestamps_loop TS2int ms = inr l ↔
  Forall2 (λ m t, TS2int (slack.Timestamp m) = inr t) ms l.
Proof.
  revert l. induction ms as [|m ms IH]; intros l; simpl.
  - split; [intros [= <-]; constructor|intros ->%Forall2_nil_inv_l; done].
  - destruct (TS2int (slack.Timestamp m)) as [err|t] eqn:Et.
    + split; [done|]. intros (t & l' & Ht & _ & _)%Forall2_cons_inv_l. congruence.
    + destruct (messageTimestamps_loop TS2int ms) as [e|ts].
      * split; [done|]. intros (t' & l' & _ & Hl & _)%Forall2_cons_inv_l.
        by apply IH in Hl.
      * split.
        -- intros [= <-]. constructor; [done|]. by apply IH.
        -- intros (t' & l' & Ht & Hl & ->)%Forall2_cons_inv_l.
           apply IH in Hl. congruence.
Qed.

Lemma messageTimestamps_loop_inl (ms : list slack.Message) (e : timestamps_error) :
  messageTimestamps_loop TS2int ms = inl e ↔
  ∃ pre m post err,
    ms = pre ++ m :: post ∧
    Forall (λ m', ∃ t, TS2int (slack.Timestamp m') = inr t) pre ∧
    TS2int (slack.Timestamp m) = inl err ∧
    e = InvalidTimestamp (slack.Timestamp m) err.
Proof.
  induction ms as [|m ms IH]; simpl.
  - split; [done|]. intros (pre & m & post & err & Hms & _). by destruct pre.
  - destruct (TS2int (slack.Timestamp m)) as [err|t] eqn:Et.
    + split.
      * intros [= <-]. by exists [], m, ms, err.
      * intros ([|m' pre] & m1 & post & err1 & Hms & Hpre & Herr & ->);
          simplify_eq/=; [congruence|].
        apply Forall_cons in Hpre as [[t Ht] _]. congruence.
    + destruct (messageTimestamps_loop TS2int ms) as [e'|ts].
      * split.
        -- intros [= <-]. destruct (proj1 IH eq_refl) as (pre & m1 & post & err & -> & Hpre & Herr & He).
           exists (m :: pre), m1, post, err. split_and!; [done| |done..].
           constructor; [by eexists|done].
        -- intros ([|m' pre] & m1 & post & err1 & Hms & Hpre & Herr & ->);
             simplify_eq/=; [congruence|].
           apply Forall_cons in Hpre as [_ Hpre].
           f_equal. assert (inl e' = inl (InvalidTimestamp (slack.Timestamp m1) err1)
                            :> timestamps_error + list Z) as [= ->]; [|done].
           apply IH. by exists pre, m1, post, err1.
      * split; [done|].
        intros ([|m' pre] & m1 & post & err1 & Hms & Hpre & Herr & ->);
          simplify_eq/=; [congruence|].
        apply Forall_cons in Hpre as [_ Hpre].
        assert (inr ts = inl (InvalidTimestamp (slack.Timestamp m1) err1)
                :> timestamps_error + list Z) as [=].
        apply IH. by exists pre, m1, post, err1.
Qed.

(** X18.  [Timestamps] is defined for Messages and ThreadMessages chunks
    only: every other type gets [ErrUnsupChunkType], whatever messages the
    chunk carries.  For the two types it returns the converted timestamps of
    the messages, one for each and in their order, when all of them convert;
    otherwise it fails with the first timestamp that does not convert. *)
Theorem Timestamps_spec (c : Chunk) :
  (Type_ c ≠ CMessages → Type_ c ≠ CThreadMessages →
   Timestamps TS2int c = inl UnsupChunkType) ∧
  (Type_ c = CMessages ∨ Type_ c = CThreadMessages →
   (∀ l, Timestamps TS2int c = inr l ↔
         Forall2 (λ m t, TS2int (slack.Timestamp m) = inr t) (Messages c) l) ∧
   (∀ e, Timestamps TS2int c = inl e ↔
         ∃ pre m post err,
           Messages c = pre ++ m :: post ∧
           Forall (λ m', ∃ t, TS2int (slack.Timestamp m') = inr t) pre ∧
           TS2int (slack.Timestamp m) = inl err ∧
           e = InvalidTimestamp (slack.Timestamp m) err)).
Proof.
  unfold Timestamps, messageTimestamps. split.
  - intros H1 H2. rewrite decide_False; [done|]. by intros [?|?].
  - intros Ht. rewrite decide_True by done. split.
    + apply messageTimestamps_loop_inr.
    + apply messageTimestamps_loop_inl.
Qed.
End TimestampsProperties.

Lemma Timestamps_spec_witness :
  let ts2int := λ ts : string, if decide (ts = "1.0") then inr 1000000%Z else inl ts in
  Timestamps ts2int (chunk_of CMessages "C1" None [msg "1.0"; msg "x"; msg "y"])
  = inl (InvalidTimestamp "x" "x") ∧
  Timestamps ts2int (chunk_of CUsers "" None [msg "1.0"]) = inl UnsupChunkType.
Proof.
  intros ts2int. split.
  - apply (proj2 (Timestamps_spec ts2int
                    (chunk_of CMessages "C1" None [msg "1.0"; msg "x"; msg "y"]))).
    + by left.
    + exists [msg "1.0"], (msg "x"), [msg "y"], "x". split_and!; try reflexivity.
      constructor; [by eexists|constructor].
  - apply (proj1 (Timestamps_spec ts2int (chunk_of CUsers "" None [msg "1.0"])));
      discriminate.
Defined.

(** ** What [State] does to the player *)

Section StateEffects.
Lemma addFiles_Filename (ch : string) (fs : list slack.File) (s : state.State) :
  state.Filename (foldl (λ s f, state.AddFile s ch (slack.ID f) "") s fs)
  = state.Filename s.
Proof. revert s. induction fs as [|f fs IH]; intros s; [done|]. simpl. by rewrite IH. Qed.

Lemma addMessages_Filename (ch : string) (ms : list slack.Message) (s : state.State) :
  state.Filename (foldl (λ s m, state.AddMessage s ch (slack.Timestamp m)) s ms)
  = state.Filename s.
Proof. revert s. induction ms as [|m ms IH]; intros s; [done|]. simpl. by rewrite IH. Qed.

Lemma addThreads_Filename (ev : Chunk) (ms : list slack.Message) (s s' : state.State) :
  addThreads s ev ms = Ok s' → state.Filename s' = state.Filename s.
Proof.
  revert s. induction ms as [|m ms IH]; intros s; simpl; [by intros [= <-]|].
  destruct (Parent ev); [|done]. simpl. intros H%IH. by rewrite H.
Qed.

Lemma State_fn_Filename (ev : option Chunk) (s s' : state.State) :
  State_fn ev s = Ok s' → state.Filename s' = state.Filename s.
Proof.
  unfold State_fn. destruct ev as [ev|]; [|by intros [= <-]].
  set (s1 := if decide (Type_ ev = CFiles) then addFiles s ev else s).
  assert (H1 : state.Filename s1 = state.Filename s).
  { unfold s1, addFiles. case_decide; [apply addFiles_Filename|done]. }
  destruct (if decide (Type_ ev = CThreadMessages) then _ else _) as [s2| |] eqn:E2;
    simpl; [|done..].
  intros [= <-].
  assert (H2 : state.Filename s2 = state.Filename s1).
  { case_decide; [by apply addThreads_Filename in E2|by injection E2 as <-]. }
  destruct (decide (Type_ ev = CMessages));
    [unfold addMessages; rewrite addMessages_Filename|]; congruence.
Qed.

Lemma ForEach_loop_Filename (inp : list Frame) (s s' : state.State) :
  ForEach_loop State_fn inp s = Ok s' → state.Filename s' = state.Filename s.
Proof.
  revert s. induction inp as [|f inp IH]; intros s; [by intros [= <-]|].
  cbn [ForEach_loop]. destruct (content f) as [c|]; [|done].
  destruct (State_fn (Some c) s) as [s1| |] eqn:E; simpl; [|done..].
  intros H%IH. apply State_fn_Filename in E. congruence.
Qed.

(** X19.  [State] is not a read-only query: it empties the cursor table of
    the player, so every key starts over afterwards; the index is kept.
    The ledger it returns is labelled with the base name of the file under
    the stream, and with the empty name when the stream is not a file. *)
Theorem State_effects (p : Player) :
  pointer (State p).2 = ∅ ∧ idx (State p).2 = idx p ∧
  (∀ id, hasMore (State p).2 id = bool_decide (is_Some (idx p !! id))) ∧
  ∀ s, (State p).1 = Ok s → state.Filename s = default "" (baseName (rs p)).
Proof.
  unfold State, ForEach, Reset, Seek.
  destruct (closed (rs p)) eqn:Hc; simpl.
  - split_and!; [done..| |done].
    intros id. unfold hasMore. simpl. rewrite lookup_empty.
    by destruct (idx p !! id).
  - split_and!; [done..| |].
    + intros id. unfold hasMore. simpl. rewrite lookup_empty.
      by destruct (idx p !! id).
    + intros s Hs. by apply ForEach_loop_Filename in Hs.
Qed.
End StateEffects.

(** ** The names of the cache files *)

Lemma append_empty_r (s : string) : s +:+ "" = s.
Proof.
  induction s as [|c s IH]; [done|].
  change (String c (s +:+ "") = String c s). by rewrite IH.
Qed.

Lemma substring_all (s : string) : String.substring 0 (String.length s) s = s.
Proof. induction s as [|c s IH]; [done|]. simpl. by rewrite IH. Qed.

Lemma substring_split (s : string) (j : nat) :
  j ≤ String.length s →
  String.substring 0 j s +:+ String.substring j (String.length s - j) s = s.
Proof.
  revert j. induction s as [|c s IH]; intros j Hj.
  - by destruct j.
  - destruct j as [|j].
    + cbn [String.substring String.append]. rewrite Nat.sub_0_r.
      apply (substring_all (String c s)).
    + simpl in *.
      change (String c (String.substring 0 j s
                        +:+ String.substring j (String.length s - j) s) = String c s).
      f_equal. apply IH. lia.
Qed.

Lemma substring_suffix_length (s : string) (j : nat) :
  j ≤ String.length s →
  String.length (String.substring j (String.length s - j) s) = String.length s - j.
Proof.
  revert j. induction s as [|c s IH]; intros j Hj.
  - by destruct j.
  - destruct j as [|j].
    + rewrite Nat.sub_0_r. by rewrite (substring_all (String c s)).
    + simpl in *. apply IH. lia.
Qed.

Lemma get_lt (s : string) (j : nat) (c : ascii) :
  String.get j s = Some c → j < String.length s.
Proof.
  revert j. induction s as [|a s IH]; intros [|j]; simpl; try done; [lia|].
  intros H%IH. lia.
Qed.

Lemma substring_suffix_head (s : string) (j : nat) (c : ascii) :
  String.get j s = Some c →
  ∃ rest, String.substring j (String.length s - j) s = String c rest.
Proof.
  revert j. induction s as [|a s IH]; intros [|j]; simpl; try done.
  - intros [= ->]. by eexists.
  - apply IH.
Qed.

(** What the loop of [filepath.Ext] returns: nothing, or the rest of the
    path from one of its dots on. *)
Lemma filepath_Ext_loop_spec (path : string) (i : nat) :
  filepath_Ext_loop path i = "" ∨
  ∃ j, j < i ∧ String.get j path = Some "."%char ∧
       filepath_Ext_loop path i = String.substring j (String.length path - j) path.
Proof.
  induction i as [|i IH]; simpl; [by left|].
  destruct (String.get i path) as [c|] eqn:Hc; [|by left].
  case_decide; [by left|]. case_decide as Hdot.
  - right. exists i. subst c. split_and!; [lia|done..].
  - destruct IH as [->|(j & Hj & Hg & ->)]; [by left|].
    right. exists j. split_and!; [lia|done..].
Qed.

(** X20.  Splitting a file name into name and extension and joining the two
    gives the file name back; the extension is empty or starts with a
    dot. *)
Theorem filenameSplit_Join (filename : string) :
  filenameJoin (filenameSplit filename) = filename ∧
  ((filenameSplit filename).2 = "" ∨
   ∃ rest, (filenameSplit filename).2 = String "." rest).
Proof.
  unfold filenameJoin, filenameSplit, filepath_Ext. simpl.
  destruct (filepath_Ext_loop_spec filename (String.length filename))
    as [->|(j & Hj & Hg & ->)].
  - simpl. rewrite Nat.sub_0_r, substring_all, append_empty_r. split; [done|by left].
  - rewrite substring_suffix_length by lia.
    replace (String.length filename - (String.length filename - j)) with j by lia.
    split; [apply substring_split; lia|]. right.
    by apply substring_suffix_head.
Qed.

(** ** The application parameters *)

Section ConfigProperties.
Context {E : Type}.
Variable IsEmpty : config.EntityList → bool.
Variable HasIncludes : config.EntityList → bool.
Variable Compile : string → option E.
Variable is_skip : E → bool.

(** X21.  When [Validate] accepts parameters that ask for neither an export
    nor the emoji mode, the output format is set: a format that was given is
    kept, an empty one has become ["text"] if a list flag is present and
    ["json"] otherwise, and nothing else has changed.  There is some input
    or a list flag, the format is a valid one unless a list flag is present,
    and the file name template compiles. *)
Theorem Validate_accepts (p p' : config.Params) :
  config.Validate IsEmpty Compile p = (None, p') →
  config.ExportName p = "" → config.Enabled (config.Emoji p) = false →
  config.Format (config.Output_ p') ≠ "" ∧
  p' = config.with_format p
         (if decide (config.Format (config.Output_ p) = "")
          then if config.FlagsPresent (config.ListFlags_ p)
               then config.OutputTypeText else config.OutputTypeJSON
          else config.Format (config.Output_ p)) ∧
  (config.IsValid IsEmpty (config.Input_ p) = true ∨
   config.FlagsPresent (config.ListFlags_ p) = true) ∧
  (config.FlagsPresent (config.ListFlags_ p) = true ∨
   config.FormatValid (config.Output_ p') = true) ∧
  Compile (config.FilenameTemplate p) = None.
Proof.
  intros Hv He Hm. unfold config.Validate in Hv.
  rewrite decide_False in Hv by (intros H; by apply H).
  rewrite Hm in Hv.
  destruct (config.IsValid IsEmpty (config.Input_ p)) eqn:Hi,
    (config.FlagsPresent (config.ListFlags_ p)) eqn:Hl; simpl in Hv; try done;
    destruct p as [lf inp [fn fmt base] tmpl en et em]; simpl in *;
    destruct (decide (fmt = "")) as [->|Hf]; simpl in *; rewrite ?Hl in Hv;
      simpl in *;
    repeat match type of Hv with
           | context [config.FormatValid ?o] =>
               destruct (config.FormatValid o) eqn:?; simpl in Hv
           | context [config.CompileTemplates ?c ?q] =>
               unfold config.CompileTemplates in Hv; simpl in Hv;
               destruct (Compile tmpl) eqn:?
           end; try done;
    injection Hv as <-; unfold config.with_format; simpl;
    split_and!; auto; try done.
Qed.

(** X22.  An export name ends the validation at once: the parameters are
    accepted unchanged, whatever else they hold.  Otherwise, outside the
    emoji mode, [ErrNothingToDo] is returned exactly when there is neither a
    valid input nor a list flag, and with a list flag present no output
    format is rejected. *)
Theorem Validate_modes (p : config.Params) :
  (config.ExportName p ≠ "" → config.Validate IsEmpty Compile p = (None, p)) ∧
  (config.ExportName p = "" → config.Enabled (config.Emoji p) = false →
   (config.Validate IsEmpty Compile p = (Some config.ErrNothingToDo, p) ↔
    config.IsValid IsEmpty (config.Input_ p) = false ∧
    config.FlagsPresent (config.ListFlags_ p) = false) ∧
   (config.FlagsPresent (config.ListFlags_ p) = true →
    ∀ format p',
      config.Validate IsEmpty Compile p
      ≠ (Some (config.ErrInvalidOutputType format), p'))).
Proof.
  split.
  - intros He. unfold config.Validate. by rewrite decide_True.
  - intros He Hm.
    destruct p as [[u ch] inp [fn fmt base] tmpl en et [em fo]]. simpl in *. subst.
    unfold config.Validate, config.IsValid, config.FlagsPresent,
      config.CompileTemplates, config.with_format. simpl.
    destruct (IsEmpty (config.List inp)), u, ch, (decide (fmt = "")) as [->|Hf];
      simpl;
      repeat match goal with
             | |- context [config.FormatValid ?o] =>
                 destruct (config.FormatValid o); simpl
             | |- context [Compile ?t] => destruct (Compile t); simpl
             end;
      (split; [split; [try done; by intros [= ?]|try done; by intros [? ?]]
              |try done; intros _ format p'; by intros [= ?]]).
Qed.
End ConfigProperties.

Section ProducerProperties.
Context {E S : Type}.
Variable IsEmpty : config.EntityList → bool.
Variable HasIncludes : config.EntityList → bool.
Variable is_skip : E → bool.
Variable fn : string → S → option E * S.

Lemma listProducer_loop_app (pre post : list string) (s s1 : S) :
  config.listProducer_loop is_skip fn pre s = (None, s1) →
  config.listProducer_loop is_skip fn (pre ++ post) s
  = config.listProducer_loop is_skip fn post s1.
Proof.
  revert s. induction pre as [|x pre IH]; intros s; simpl; [by intros [= ->]|].
  destruct (fn x s) as [[e|] s']; [destruct (is_skip e)|]; try done; apply IH.
Qed.

Lemma listProducer_loop_all_skipped (entries : list string) (s : S) :
  (∀ entry s0 e s1, fn entry s0 = (Some e, s1) → is_skip e = true) →
  config.listProducer_loop is_skip fn entries s
  = (None, foldl (λ s entry, (fn entry s).2) s entries).
Proof.
  intros Hskip. revert s. induction entries as [|x entries IH]; intros s; [done|].
  simpl. destruct (fn x s) as [[e|] s'] eqn:Ef; simpl; [|apply IH].
  rewrite (Hskip _ _ _ _ Ef). apply IH.
Qed.

(** X23.  [Producer] calls the callback on the included entries in their
    order.  An [ErrSkip] from the callback skips one entry only; the first
    other error ends the loop and is returned, and the entries after it are
    not processed.  Without a valid input or without includes the callback
    is not called and [ErrInvalidInput] is returned. *)
Theorem Producer_spec (inp : config.Input) (s : S) :
  (config.IsValid IsEmpty inp = false ∨ HasIncludes (config.List inp) = false →
   config.Producer IsEmpty HasIncludes is_skip inp fn s
   = (Some config.ErrInvalidInput, s)) ∧
  (config.IsValid IsEmpty inp = true → HasIncludes (config.List inp) = true →
   (∀ pre x post s1 e s2,
      config.Include (config.List inp) = pre ++ x :: post →
      config.listProducer_loop is_skip fn pre s = (None, s1) →
      fn x s1 = (Some e, s2) → is_skip e = false →
      config.Producer IsEmpty HasIncludes is_skip inp fn s
      = (Some (config.Other e), s2)) ∧
   ((∀ entry s0 e s1, fn entry s0 = (Some e, s1) → is_skip e = true) →
    config.Producer IsEmpty HasIncludes is_skip inp fn s
    = (None, foldl (λ s entry, (fn entry s).2) s (config.Include (config.List inp))))).
Proof.
  unfold config.Producer, config.listProducer. split.
  - intros [->| ->]; [done|]. by destruct (config.IsValid _ _).
  - intros -> ->. simpl. split.
    + intros pre x post s1 e s2 -> Hpre Hx He.
      rewrite (listProducer_loop_app pre (x :: post) s s1 Hpre). simpl.
      by rewrite Hx, He.
    + apply listProducer_loop_all_skipped.
Qed.
End ProducerProperties.

Lemma Validate_accepts_witness :
  config.Validate el_IsEmpty (λ _, None (A:=unit)) dump_params
  = (None, config.with_format dump_params "json") ∧
  config.Format (config.Output_ (config.with_format dump_params "json")) ≠ "".
Proof.
  split; [reflexivity|].
  exact (proj1 (Validate_accepts el_IsEmpty (λ _, None (A:=unit)) dump_params
                  (config.with_format dump_params "json") eq_refl eq_refl eq_refl)).
Defined.

Lemma Validate_modes_witness :
  config.FlagsPresent (config.ListFlags_ list_params) = true ∧
  config.FormatValid (config.Output_ list_params) = false ∧
  ∀ p', config.Validate el_IsEmpty (λ _, None (A:=unit)) list_params
        ≠ (Some (config.ErrInvalidOutputType "xml"), p').
Proof.
  split; [reflexivity|]. split; [reflexivity|].
  intros p'.
  exact (proj2 (proj2 (Validate_modes el_IsEmpty (λ _, None (A:=unit)) list_params)
                  eq_refl eq_refl) eq_refl "xml" p').
Defined.

Lemma Producer_spec_witness :
  config.IsValid el_IsEmpty (config.Input_ dump_params) = true ∧
  el_HasIncludes (config.List (config.Input_ dump_params)) = true ∧
  config.Producer el_IsEmpty el_HasIncludes (λ _, true) (config.Input_ dump_params)
    note_entry []
  = (None, ["C1"; "C3"]) ∧
  config.Producer el_IsEmpty el_HasIncludes (λ _, false) (config.Input_ dump_params)
    note_entry []
  = (Some (config.Other ()), ["C1"]).
Proof.
  split; [reflexivity|]. split; [reflexivity|]. split.
  - refine (proj2 (proj2 (Producer_spec el_IsEmpty el_HasIncludes (λ _, true)
                            note_entry (config.Input_ dump_params) [])
                     eq_refl eq_refl) _).
    done.
  - exact (proj1 (proj2 (Producer_spec el_IsEmpty el_HasIncludes (λ _, false)
                           note_entry (config.Input_ dump_params) [])
                    eq_refl eq_refl)
             ["C1"] "C2" ["C3"] ["C1"] () ["C1"] eq_refl eq_refl eq_refl eq_refl).
Defined.

(** ** The accessors and the keys *)

Lemma project_fmap {A} (r : result Chunk) (f : Chunk → A) :
  (chunk ← r; Ok (f chunk)) = f <$> r.
Proof. by destruct r. Qed.

(** X24.  The typed accessors read under the key that the indexer files
    the records of their type under: [Messages] for the channel of a
    Messages chunk, [Thread] for the channel and the thread timestamp of the
    parent of a ThreadMessages chunk, [ChannelInfo] for the channel of a
    ChannelInfo chunk, [Users] and [Channels] for the Users and Channels
    chunks each do the read for the key of that chunk and return its
    payload. *)
Theorem accessors_read_ID_key `{!Stringer ChunkType} (p : Player) (c : Chunk)
    (k : GroupID) :
  ID c = Ok k →
  (Type_ c = CMessages →
   Messages_ p (ChannelID c) = (Messages <$> (tryGetChunk p k).1, (tryGetChunk p k).2)) ∧
  (∀ parent, Type_ c = CThreadMessages → Parent c = Some parent →
   Thread p (ChannelID c) (slack.ThreadTimestamp parent)
   = (Messages <$> (tryGetChunk p k).1, (tryGetChunk p k).2) ∧
   HasMoreThreads p (ChannelID c) (slack.ThreadTimestamp parent) = hasMore p k) ∧
  (Type_ c = CChannelInfo →
   ChannelInfo p (ChannelID c) = (Channel <$> (tryGetChunk p k).1, (tryGetChunk p k).2)) ∧
  (Type_ c = CUsers →
   Users_ p = (Users <$> (tryGetChunk p k).1, (tryGetChunk p k).2)) ∧
  (Type_ c = CChannels →
   Channels_ p = (Channels <$> (tryGetChunk p k).1, (tryGetChunk p k).2)).
Proof.
  intros Hk. split_and!.
  - intros Ht. rewrite ID_Messages in Hk by done. injection Hk as <-.
    unfold Messages_. destruct (tryGetChunk p (ChannelID c)). simpl.
    by rewrite project_fmap.
  - intros parent Ht Hp. rewrite ID_ThreadMessages, Hp in Hk by done.
    injection Hk as <-. unfold HasMoreThreads, Thread.
    change (threadID (ChannelID c) (slack.ThreadTimestamp parent))
      with ("t" +:+ ChannelID c +:+ ":" +:+ slack.ThreadTimestamp parent).
    destruct (tryGetChunk p _). simpl. by rewrite project_fmap.
  - intros Ht. rewrite ID_ChannelInfo in Hk by done. injection Hk as <-.
    unfold ChannelInfo.
    change (channelInfoID (ChannelID c)) with ("ic" +:+ ChannelID c).
    destruct (tryGetChunk p _). simpl. by rewrite project_fmap.
  - intros Ht. rewrite ID_Users in Hk by done. injection Hk as <-.
    unfold Users_. change userChunkID with "lusr".
    destruct (tryGetChunk p _). simpl. by rewrite project_fmap.
  - intros Ht. rewrite ID_Channels in Hk by done. injection Hk as <-.
    unfold Channels_. change channelChunkID with "lch".
    destruct (tryGetChunk p _). simpl. by rewrite project_fmap.
Qed.

Lemma accessors_read_ID_key_witness :
  ID scenarioB_chunk = Ok "tC1:1000.001" ∧
  Thread scenarioB_player "C1" "1000.001"
  = (Ok (Messages scenarioB_chunk), scenarioB_drained).
Proof.
  split; [reflexivity|].
  exact (proj1 (proj1 (proj2 (accessors_read_ID_key scenarioB_player scenarioB_chunk
                                "tC1:1000.001" eq_refl))
                  thread_root eq_refl eq_refl)).
Defined.

Lemma Reset_restarts_witness :
  hasMore scenarioB_drained "tC1:1000.001" = false ∧
  hasMore (Reset scenarioB_drained).2 "tC1:1000.001" = true ∧
  pos (rs (Reset scenarioB_drained).2) = 0%Z.
Proof.
  destruct (Reset_restarts scenarioB_drained) as (_ & _ & _ & Hpos & Hm).
  split; [reflexivity|]. split.
  - exact (proj1 (Hm "tC1:1000.001")).
  - exact (Hpos eq_refl).
Defined.

Lemma State_effects_witness :
  cursor scenarioB_drained "tC1:1000.001" = 1 ∧
  pointer (State scenarioB_drained).2 = ∅ ∧
  ∃ s, (State scenarioB_drained).1 = Ok s ∧ state.Filename s = "".
Proof.
  destruct (State_effects scenarioB_drained) as (Hp & _ & _ & Hn).
  split; [reflexivity|]. split; [exact Hp|].
  eexists. split; [reflexivity|]. apply Hn. reflexivity.
Defined.

(** ** Further pages of the replay server *)

(** X25.  The replies endpoint pages through the ThreadMessages records of
    a thread like the history endpoint through those of a channel: the
    replies of the record at the cursor, its offset as [next_cursor], and
    [has_more] true exactly when a further record of the thread is left. *)
Theorem replies_pages `{!Stringer ChunkType} (enc_size : Chunk → positive)
    (chunks : list Chunk) (channel timestamp : string) (p : Player)
    (off : Z) (c : Chunk) :
  timestamp ≠ "" →
  reads_log enc_size chunks (threadID channel timestamp) p →
  with_key (threadID channel timestamp) (located enc_size 0 chunks)
    !! cursor p (threadID channel timestamp) = Some (off, c) →
  (chunktest.handleConversationsReplies p channel timestamp).1
  = chunktest.JSON
      (chunktest.RepliesResponse chunktest.ok_response
         (bool_decide
            (S (cursor p (threadID channel timestamp))
             < length (with_key (threadID channel timestamp)
                         (located enc_size 0 chunks))))
         (chunktest.FormatInt off) (Messages c)) ∧
  cursor (chunktest.handleConversationsReplies p channel timestamp).2
    (threadID channel timestamp)
  = S (cursor p (threadID channel timestamp)).
Proof.
  intros Hts Hr Hn. set (k := threadID channel timestamp) in *.
  pose proof (tryGetChunk_next enc_size chunks k p off c Hr Hn) as Hok.
  pose proof (tryGetChunk_reads_log enc_size chunks k p Hr) as Hr'.
  destruct (tryGetChunk_Ok_state p k c Hok) as [Hptr Hoff].
  destruct (tryGetChunk_Ok_cursor p k c Hok) as [Hcur _].
  assert (Hno : next_offset p k = Some off).
  { destruct Hr as (_ & _ & Hi). unfold next_offset. rewrite Hi. simpl.
    by rewrite list_lookup_fmap, Hn. }
  rewrite Hno in Hoff. injection Hoff as Hoff.
  unfold chunktest.handleConversationsReplies. rewrite decide_False by done.
  unfold Thread, HasMoreThreads, Offset, hasMore. fold k.
  destruct (tryGetChunk p k) as [r p']. simpl in *. subst r. simpl.
  destruct Hr' as (Hf' & Hc' & Hi'). rewrite Hi', Hptr, length_fmap, <- Hoff.
  done.
Qed.

Lemma replies_pages_witness :
  "1000.001" ≠ "" ∧
  reads_log (λ _, 64%positive) [scenarioB_chunk] (threadID "C1" "1000.001")
    scenarioB_player ∧
  (chunktest.handleConversationsReplies scenarioB_player "C1" "1000.001").1
  = chunktest.JSON
      (chunktest.RepliesResponse chunktest.ok_response false "0"
         (Messages scenarioB_chunk)).
Proof.
  assert (Hne : "1000.001" ≠ "") by discriminate.
  assert (Hr : reads_log (λ _, 64%positive) [scenarioB_chunk]
                 (threadID "C1" "1000.001") scenarioB_player)
    by (split_and!; reflexivity).
  split; [exact Hne|]. split; [exact Hr|].
  exact (proj1 (replies_pages (λ _, 64%positive) [scenarioB_chunk] "C1" "1000.001"
                  scenarioB_player 0 scenarioB_chunk Hne Hr eq_refl)).
Defined.


